(** * Driver safety monitor: drowsiness, yawn, accident, sobriety and GPS logic

    A shallow embedding of [advanced_safety_system.py].  The module-level
    globals of the script become one [state] record that every function
    threads explicitly; hardware and network side effects (tone, buzzer,
    e-mail) are recorded as [event]s appended to the [out] field of that
    record; a few helpers ([face_step], [face_loop]) run in a small error
    monad because the script can raise there.

    Conventions.
    - Python [float] readings that the script only compares or stores
      (EAR, tilt angle, clock, coordinates) are modelled by rationals [Q]:
      every double is a rational, and a comparison of two doubles is the
      comparison of these rationals.
    - The mouth ratios go through arithmetic (the running baseline, the
      product with [MAR_MULTIPLIER]), which rounds; they are binary64
      numbers, Rocq's primitive [float], and the script's [+], [/], [*] and
      [>] on them are the IEEE 754 operations [PrimFloat.add], [div], [mul]
      and [ltb].
    - Python [str] is modelled by [string] (ASCII characters).
    - Library calls whose code is not part of the script (the microphone and
      the recogniser, the serial port, Python's [float()] on a string, the
      face detector, [np.mean]) appear as inputs or parameters of the
      functions that use them. *)

From Stdlib Require Import ZArith QArith Lia List Ascii String.
From Stdlib Require Import Floats.PrimFloat.
From stdpp Require Import gmap strings.

Local Open Scope Q_scope.

(** Decimal literals of the script denote the nearest binary64 number. *)
Set Warnings "-inexact-float".

(** A binary64 number, [float] in Python and [np.float64] in NumPy. *)
Abbreviation float64 := PrimFloat.float.

(** ** Strict comparison on rationals, as a boolean *)

Definition Qlt_bool (x y : Q) : bool := negb (Qle_bool y x).
Definition Qgt_bool (x y : Q) : bool := Qlt_bool y x.
Definition Qge_bool (x y : Q) : bool := Qle_bool y x.

(** ** Sobriety test: speech verification *)

Module Speech.

(** [str.lower()] on ASCII text. *)
Definition lower_char (c : ascii) : ascii :=
  let n := nat_of_ascii c in
  if ((65 <=? n) && (n <=? 90))%nat then ascii_of_nat (n + 32) else c.

Fixpoint lower (s : string) : string :=
  match s with
  | EmptyString => EmptyString
  | String c r => String (lower_char c) (lower r)
  end.

(** [str.isspace()] on ASCII text: TAB..CR, FS..US and the blank. *)
Definition is_space (c : ascii) : bool :=
  let n := nat_of_ascii c in
  (((9 <=? n) && (n <=? 13)) || ((28 <=? n) && (n <=? 32)))%nat.

Definition snoc (w : string) (c : ascii) : string :=
  (w +:+ String c EmptyString)%string.

Definition flush (cur : string) (rest : list string) : list string :=
  match cur with
  | EmptyString => rest
  | _ => cur :: rest
  end.

(** [str.split()] without argument: maximal runs of non-blank characters.
    [cur] is the word being read. *)
Fixpoint split_from (cur : string) (s : string) : list string :=
  match s with
  | EmptyString => flush cur []
  | String c r =>
      if is_space c then flush cur (split_from EmptyString r)
      else split_from (snoc cur c) r
  end.

Definition split (s : string) : list string := split_from EmptyString s.

(** What the microphone and the recogniser hand back to [verify_speech]:
    a transcript, or one of the exceptions the function catches. *)
Inductive capture : Type :=
  | Heard (text : string)
  | WaitTimeoutError
  | UnknownValueError
  | OtherError.

Definition words (s : string) : gset string := list_to_set (split s).

(** [len(words_expected & words_spoken) / len(words_expected)];
    [None] is the [ZeroDivisionError] of an empty prompt. *)
Definition match_ratio (expected_lower spoken_text : string) : option Q :=
  let words_expected := words expected_lower in
  let words_spoken := words spoken_text in
  match size words_expected with
  | O => None
  | n => Some (inject_Z (Z.of_nat (size (words_expected ∩ words_spoken)))
               / inject_Z (Z.of_nat n))
  end.

Definition verify_speech (expected_text : string) (heard : capture) : bool :=
  match heard with
  | Heard text =>
      let spoken_text := lower text in
      let expected_lower := lower expected_text in
      match match_ratio expected_lower spoken_text with
      | Some ratio => Qge_bool ratio 0.75
      | None => false (* except Exception *)
      end
  | WaitTimeoutError => false
  | UnknownValueError => false
  | OtherError => false
  end.

End Speech.

(** ** GPS: NMEA parsing and the last known fix *)

Record coords : Type := { lat : option Q; lon : option Q }.

Module Gps.

(** [s[:n]] and [s[n:]] on strings. *)
Fixpoint take (n : nat) (s : string) : string :=
  match n, s with
  | S n', String c r => String c (take n' r)
  | _, _ => EmptyString
  end.

Fixpoint drop (n : nat) (s : string) : string :=
  match n, s with
  | S n', String _ r => drop n' r
  | _, _ => s
  end.

(** [line.split(',')]: the fields between commas, empty ones kept. *)
Fixpoint split_comma (cur : string) (s : string) : list string :=
  match s with
  | EmptyString => [cur]
  | String c r =>
      if Ascii.eqb c ","%char then cur :: split_comma EmptyString r
      else split_comma (Speech.snoc cur c) r
  end.

Definition truthy (s : string) : bool :=
  match s with EmptyString => false | _ => true end.

(** One [gps_serial.readline()]: a decoded line, or an exception of the
    serial port.  A read that times out gives the empty line. *)
Inductive readline : Type :=
  | Line (text : string)
  | SerialError.

(** What one iteration of the [for] loop does with its line. *)
Inductive sentence : Type :=
  | Fix (c : coords)   (* assigns [last_gps_coords] and returns *)
  | Skip               (* next iteration *)
  | Raised.            (* caught by [except Exception] *)

Section Parser.

(** Python's [float()] on a string; [None] is its [ValueError]. *)
Variable float : string -> option Q.

Definition parse_sentence (line : string) : sentence :=
  if String.prefix "$GPGGA" line || String.prefix "$GNGGA" line then
    let parts := split_comma EmptyString line in
    if (6 <? length parts)%nat && truthy (nth 2 parts EmptyString)
       && truthy (nth 4 parts EmptyString) then
      let lat_raw := nth 2 parts EmptyString in
      match float (take 2 lat_raw), float (drop 2 lat_raw) with
      | Some lat_deg, Some lat_min =>
          let lat := lat_deg + lat_min / 60 in
          let lat := if String.eqb (nth 3 parts EmptyString) "S" then - lat else lat in
          let lon_raw := nth 4 parts EmptyString in
          match float (take 3 lon_raw), float (drop 3 lon_raw) with
          | Some lon_deg, Some lon_min =>
              let lon := lon_deg + lon_min / 60 in
              let lon := if String.eqb (nth 5 parts EmptyString) "W" then - lon else lon in
              Fix {| lat := Some lat; lon := Some lon |}
          | _, _ => Raised
          end
      | _, _ => Raised
      end
    else Skip
  else Skip.

Definition next_read (port : list readline) : readline * list readline :=
  match port with
  | [] => (Line EmptyString, [])
  | r :: rest => (r, rest)
  end.

(** [for _ in range(n)]: read a line, parse it. *)
Fixpoint read_lines (n : nat) (port : list readline) : sentence :=
  match n with
  | O => Skip
  | S n' =>
      match next_read port with
      | (SerialError, _) => Raised
      | (Line line, rest) =>
          match parse_sentence line with
          | Skip => read_lines n' rest
          | found => found
          end
      end
  end.

(** [parse_gps_data()]: [gps_serial] is [None] when the device is absent,
    else the lines the port delivers to this call.  Returns the value of
    the call and the new [last_gps_coords]. *)
Definition parse_gps_data (gps_serial : option (list readline))
    (last_gps_coords : coords) : coords * coords :=
  match gps_serial with
  | None => (last_gps_coords, last_gps_coords)
  | Some port =>
      match read_lines 10 port with
      | Fix c => (c, c)
      | Skip => (last_gps_coords, last_gps_coords)
      | Raised => (last_gps_coords, last_gps_coords)
      end
  end.

End Parser.

(** Unsigned decimal literals, the form of the numeric NMEA fields: the
    instance of [float] used in the worked examples. *)
Definition digit (c : ascii) : option Z :=
  let n := nat_of_ascii c in
  if ((48 <=? n) && (n <=? 57))%nat then Some (Z.of_nat (n - 48)) else None.

Fixpoint digits (acc : Z) (s : string) : option (Z * string) :=
  match s with
  | EmptyString => Some (acc, EmptyString)
  | String c r =>
      if Ascii.eqb c "."%char then Some (acc, r)
      else match digit c with
           | Some d => digits (10 * acc + d) r
           | None => None
           end
  end.

Fixpoint fraction (num : Z) (den : positive) (s : string) : option Q :=
  match s with
  | EmptyString => Some (num # den)
  | String c r =>
      match digit c with
      | Some d => fraction (10 * num + d) (10 * den) r
      | None => None
      end
  end.

Definition decimal_float (s : string) : option Q :=
  match s with
  | EmptyString => None
  | _ => match digits 0 s with
         | Some (int_part, frac) =>
             match fraction 0 1 frac with
             | Some f => Some (inject_Z int_part + f)
             | None => None
             end
         | None => None
         end
  end.

End Gps.

(** ** Configuration constants *)

Definition ALCOHOL_THRESHOLD : Q := 500.
Definition TILT_THRESHOLD : Q := 45.
Definition BEEP_DURATION : Q := 6.
Definition EYE_AR_THRESH : Q := 0.25.
Definition EYE_AR_CONSEC_FRAMES : nat := 20.
Definition MAR_MULTIPLIER : float64 := 1.7%float.
Definition MAR_SMOOTH_WIN : nat := 10.
Definition CALIB_FRAMES : nat := 30.

(** ** Side effects *)

(** The subject line of an emergency e-mail. *)
Inductive incident : Type :=
  | Accident (tilt_angle : Q)  (* "ACCIDENT - Vehicle Tilted ..." *)
  | Drowsiness                 (* "DROWSINESS - Driver Not Responding" *)
  | AlcoholFailed.             (* "ALCOHOL DETECTED - Failed Sobriety Test" *)

(** Calls that reach the speaker, the buzzer pin or the mail server. *)
Inductive event : Type :=
  | PlayBeep                                  (* play_beep_alert() *)
  | StopBeep                                  (* stop_beep_alert() *)
  | BuzzerOn                                  (* external_buzzer.beep(...) *)
  | BuzzerOff                                 (* external_buzzer.off() *)
  | Email (what : incident) (gps_coords : coords).  (* send_emergency_email *)

(** ** The globals of the script *)

Record state : Type := {
  alert_active : bool;
  beep_start_time : option Q;
  buzzer_active : bool;
  alcohol_test_active : bool;
  test_text : string;
  alcohol_test_failed : bool;
  accident_detected : bool;
  last_gps_coords : coords;
  COUNTER : nat;
  lip_hist : list float64;
  calib_base : option float64;
  calib_count : nat;
  drowsiness_email_sent : bool;
  out : list event   (* effects so far, oldest first *)
}.

Definition initial : state := {|
  alert_active := false;
  beep_start_time := None;
  buzzer_active := false;
  alcohol_test_active := false;
  test_text := EmptyString;
  alcohol_test_failed := false;
  accident_detected := false;
  last_gps_coords := {| lat := None; lon := None |};
  COUNTER := 0;
  lip_hist := [];
  calib_base := None;
  calib_count := 0;
  drowsiness_email_sent := false;
  out := []
|}.

(** Assignments to one global. *)
Definition set_alert_active (v : bool) (s : state) : state :=
  Build_state v (beep_start_time s) (buzzer_active s) (alcohol_test_active s)
    (test_text s) (alcohol_test_failed s) (accident_detected s)
    (last_gps_coords s) (COUNTER s) (lip_hist s) (calib_base s)
    (calib_count s) (drowsiness_email_sent s) (out s).

Definition set_beep_start_time (v : option Q) (s : state) : state :=
  Build_state (alert_active s) v (buzzer_active s) (alcohol_test_active s)
    (test_text s) (alcohol_test_failed s) (accident_detected s)
    (last_gps_coords s) (COUNTER s) (lip_hist s) (calib_base s)
    (calib_count s) (drowsiness_email_sent s) (out s).

Definition set_buzzer_active (v : bool) (s : state) : state :=
  Build_state (alert_active s) (beep_start_time s) v (alcohol_test_active s)
    (test_text s) (alcohol_test_failed s) (accident_detected s)
    (last_gps_coords s) (COUNTER s) (lip_hist s) (calib_base s)
    (calib_count s) (drowsiness_email_sent s) (out s).

Definition set_alcohol_test_active (v : bool) (s : state) : state :=
  Build_state (alert_active s) (beep_start_time s) (buzzer_active s) v
    (test_text s) (alcohol_test_failed s) (accident_detected s)
    (last_gps_coords s) (COUNTER s) (lip_hist s) (calib_base s)
    (calib_count s) (drowsiness_email_sent s) (out s).

Definition set_test_text (v : string) (s : state) : state :=
  Build_state (alert_active s) (beep_start_time s) (buzzer_active s)
    (alcohol_test_active s) v (alcohol_test_failed s) (accident_detected s)
    (last_gps_coords s) (COUNTER s) (lip_hist s) (calib_base s)
    (calib_count s) (drowsiness_email_sent s) (out s).

Definition set_alcohol_test_failed (v : bool) (s : state) : state :=
  Build_state (alert_active s) (beep_start_time s) (buzzer_active s)
    (alcohol_test_active s) (test_text s) v (accident_detected s)
    (last_gps_coords s) (COUNTER s) (lip_hist s) (calib_base s)
    (calib_count s) (drowsiness_email_sent s) (out s).

Definition set_accident_detected (v : bool) (s : state) : state :=
  Build_state (alert_active s) (beep_start_time s) (buzzer_active s)
    (alcohol_test_active s) (test_text s) (alcohol_test_failed s) v
    (last_gps_coords s) (COUNTER s) (lip_hist s) (calib_base s)
    (calib_count s) (drowsiness_email_sent s) (out s).

Definition set_last_gps_coords (v : coords) (s : state) : state :=
  Build_state (alert_active s) (beep_start_time s) (buzzer_active s)
    (alcohol_test_active s) (test_text s) (alcohol_test_failed s)
    (accident_detected s) v (COUNTER s) (lip_hist s) (calib_base s)
    (calib_count s) (drowsiness_email_sent s) (out s).

Definition set_COUNTER (v : nat) (s : state) : state :=
  Build_state (alert_active s) (beep_start_time s) (buzzer_active s)
    (alcohol_test_active s) (test_text s) (alcohol_test_failed s)
    (accident_detected s) (last_gps_coords s) v (lip_hist s) (calib_base s)
    (calib_count s) (drowsiness_email_sent s) (out s).

Definition set_lip_hist (v : list float64) (s : state) : state :=
  Build_state (alert_active s) (beep_start_time s) (buzzer_active s)
    (alcohol_test_active s) (test_text s) (alcohol_test_failed s)
    (accident_detected s) (last_gps_coords s) (COUNTER s) v (calib_base s)
    (calib_count s) (drowsiness_email_sent s) (out s).

Definition set_calib_base (v : option float64) (s : state) : state :=
  Build_state (alert_active s) (beep_start_time s) (buzzer_active s)
    (alcohol_test_active s) (test_text s) (alcohol_test_failed s)
    (accident_detected s) (last_gps_coords s) (COUNTER s) (lip_hist s) v
    (calib_count s) (drowsiness_email_sent s) (out s).

Definition set_calib_count (v : nat) (s : state) : state :=
  Build_state (alert_active s) (beep_start_time s) (buzzer_active s)
    (alcohol_test_active s) (test_text s) (alcohol_test_failed s)
    (accident_detected s) (last_gps_coords s) (COUNTER s) (lip_hist s)
    (calib_base s) v (drowsiness_email_sent s) (out s).

Definition set_drowsiness_email_sent (v : bool) (s : state) : state :=
  Build_state (alert_active s) (beep_start_time s) (buzzer_active s)
    (alcohol_test_active s) (test_text s) (alcohol_test_failed s)
    (accident_detected s) (last_gps_coords s) (COUNTER s) (lip_hist s)
    (calib_base s) (calib_count s) v (out s).

Definition emit (e : event) (s : state) : state :=
  Build_state (alert_active s) (beep_start_time s) (buzzer_active s)
    (alcohol_test_active s) (test_text s) (alcohol_test_failed s)
    (accident_detected s) (last_gps_coords s) (COUNTER s) (lip_hist s)
    (calib_base s) (calib_count s) (drowsiness_email_sent s) (out s ++ [e]).

(** ** Alert and buzzer functions *)

Definition play_beep_alert (s : state) : state := emit PlayBeep s.

Definition stop_beep_alert (s : state) : state := emit StopBeep s.

Definition activate_external_buzzer (s : state) : state :=
  emit BuzzerOn (set_buzzer_active true s).

Definition deactivate_external_buzzer (s : state) : state :=
  emit BuzzerOff (set_buzzer_active false s).

(** The return value of [send_emergency_email] is never used. *)
Definition send_emergency_email (what : incident) (gps_coords : coords)
    (s : state) : state :=
  emit (Email what gps_coords) s.

(** ** Sensors *)

(** [check_alcohol_level()]: [sensor] is [alcohol_sensor.value], or [None]
    when the sensor is absent or its read raises. *)
Definition check_alcohol_level (sensor : option Q) : bool :=
  match sensor with
  | None => false
  | Some value =>
      let reading := value * 1024 in
      Qgt_bool reading ALCOHOL_THRESHOLD
  end.

(** [generate_random_text()]: [sample] is what [random.sample(words, 4)]
    draws. *)
Fixpoint join (sep : string) (l : list string) : string :=
  match l with
  | [] => EmptyString
  | [w] => w
  | w :: r => (w +:+ sep +:+ join sep r)%string
  end.

Definition generate_random_text (sample : list string) : string :=
  join " " sample.

(** [check_tilt_angle()]: [angle] is the tilt from vertical in degrees that
    the accelerometer axes give, or [None] when the accelerometer is absent
    or its read raises. *)
Definition check_tilt_angle (angle : option Q) : bool * Q :=
  match angle with
  | None => (false, 0)
  | Some tilt_angle =>
      let is_tilted := Qgt_bool tilt_angle TILT_THRESHOLD in
      (is_tilted, tilt_angle)
  end.

(** ** One iteration of the main loop *)

(** Metrics of one detected face: [final_ear(shape)] and
    [mouth_aspect_ratio(shape)]. *)
Record face : Type := { face_ear : Q; face_mar : float64 }.

Inductive key : Type :=
  | KeyQ
  | KeyS
  | KeyA
  | KeyR
  | KeyNone.   (* no key, or any other key *)

(** Everything one iteration reads from outside. *)
Record frame : Type := {
  gps_serial : option (list Gps.readline);
  tilt : option Q;
  alcohol : option Q;
  sample : list string;
  rects : list face;
  now : Q;                   (* time.time() *)
  pressed : key;
  speech : Speech.capture    (* what the microphone gives if it is used *)
}.

(** Exceptions that nothing catches. *)
Inductive exn : Type :=
  | TypeError.   (* [None * float] *)

Inductive result (A : Type) : Type :=
  | Ok (a : A)
  | Raise (e : exn).

Arguments Ok {A} a.
Arguments Raise {A} e.

Definition bind {A B : Type} (m : result A) (k : A -> result B) : result B :=
  match m with
  | Ok a => k a
  | Raise e => Raise e
  end.

Notation "'try' p ':=' m 'in' k" := (bind m (fun p => k))
  (at level 10, p pattern, m at level 100, k at level 200).

(** [lip_hist.append(mar)] and the eviction of the oldest reading. *)
Definition push_lip (mar : float64) (hist : list float64) : list float64 :=
  let hist := hist ++ [mar] in
  if (MAR_SMOOTH_WIN <? length hist)%nat then tl hist else hist.

Section Faces.

(** [np.mean] on the smoothing window: what NumPy computes for a list of
    doubles (the order of the additions, the rounding) is not part of the
    script, so the face analysis takes it as a parameter. *)
Variable np_mean : list float64 -> float64.

(** Smoothing, calibration and the yawn test for one face; the boolean
    tells whether the yawn branch set [trigger_alert]. *)
Definition mouth_update (mar : float64) (s : state) : result (bool * state) :=
  let s := set_lip_hist (push_lip mar (lip_hist s)) s in
  let smooth_mar := np_mean (lip_hist s) in
  if (calib_count s <? CALIB_FRAMES)%nat then
    let base := match calib_base s with
                | None => smooth_mar
                | Some calib_base => ((calib_base + smooth_mar) / 2)%float
                end in
    let s := set_calib_base (Some base) s in
    let s := set_calib_count (calib_count s + 1) s in
    Ok (false, s)
  else
    match calib_base s with
    | None => Raise TypeError
    | Some calib_base =>
        Ok ((calib_base * MAR_MULTIPLIER <? smooth_mar)%float, s)
    end.

(** The eye counter for one face; the boolean tells whether the
    drowsiness branch set [trigger_alert]. *)
Definition eye_update (ear : Q) (s : state) : bool * state :=
  if Qlt_bool ear EYE_AR_THRESH then
    let s := set_COUNTER (COUNTER s + 1) s in
    ((EYE_AR_CONSEC_FRAMES <=? COUNTER s)%nat, s)
  else
    (false, set_COUNTER 0 s).

(** The body of [for rect in rects]. *)
Definition face_step (f : face) (trigger_alert : bool) (s : state)
    : result (bool * state) :=
  try (yawn, s) := mouth_update (face_mar f) s in
  let '(drowsy, s) := eye_update (face_ear f) s in
  Ok (trigger_alert || yawn || drowsy, s).

Fixpoint face_loop (rects : list face) (trigger_alert : bool) (s : state)
    : result (bool * state) :=
  match rects with
  | [] => Ok (trigger_alert, s)
  | f :: rest =>
      try (trigger_alert, s) := face_step f trigger_alert s in
      face_loop rest trigger_alert s
  end.

(** Face detection and analysis: the value of [trigger_alert] and the
    new globals. *)
Definition face_phase (rects : list face) (s : state) : result (bool * state) :=
  let trigger_alert := false in
  match rects with
  | [] =>
      let s := set_COUNTER 0 s in
      let s :=
        if negb (accident_detected s) && negb (alcohol_test_active s) then
          let s := set_beep_start_time None s in
          let s := if alert_active s
                   then set_alert_active false (stop_beep_alert s) else s in
          if buzzer_active s then deactivate_external_buzzer s else s
        else s in
      Ok (trigger_alert, s)
  | _ => face_loop rects trigger_alert s
  end.

End Faces.

(** GPS update, tilt detection and alcohol detection; returns the local
    [gps_coords]. *)
Section Tick.

Variable float : string -> option Q.
Variable np_mean : list float64 -> float64.

Definition sensor_phase (f : frame) (s : state) : coords * state :=
  let '(gps_coords, last) :=
    Gps.parse_gps_data float (gps_serial f) (last_gps_coords s) in
  let s := set_last_gps_coords last s in
  let '(is_tilted, tilt_angle) := check_tilt_angle (tilt f) in
  let s :=
    if is_tilted && negb (accident_detected s) then
      let s := set_accident_detected true s in
      let s := activate_external_buzzer s in
      send_emergency_email (Accident tilt_angle) gps_coords s
    else s in
  let s :=
    if negb (alcohol_test_active s) && check_alcohol_level (alcohol f) then
      let s := set_alcohol_test_active true s in
      set_test_text (generate_random_text (sample f)) s
    else s in
  (gps_coords, s).

(** A stored start time of [0.0] is falsy, like [None]. *)
Definition time_truthy (t : option Q) : bool :=
  match t with
  | None => false
  | Some t => negb (Qeq_bool t 0)
  end.

(** Alert logic (drowsiness / yawn). *)
Definition alert_logic (trigger_alert : bool) (now : Q) (gps_coords : coords)
    (s : state) : state :=
  if trigger_alert then
    if negb (alert_active s) then
      let s := set_alert_active true s in
      let s := set_beep_start_time (Some now) s in
      let s := play_beep_alert s in
      set_drowsiness_email_sent false s
    else
      match beep_start_time s with
      | Some started =>
          if time_truthy (Some started)
             && Qge_bool (now - started) BEEP_DURATION then
            let s := if negb (buzzer_active s)
                     then activate_external_buzzer s else s in
            if negb (drowsiness_email_sent s) then
              let s := send_emergency_email Drowsiness gps_coords s in
              set_drowsiness_email_sent true s
            else s
          else s
      | None => s
      end
  else
    let s := if alert_active s && negb (accident_detected s)
             then set_alert_active false (stop_beep_alert s) else s in
    let s := if buzzer_active s && negb (accident_detected s)
             then deactivate_external_buzzer s else s in
    if negb (accident_detected s) then set_beep_start_time None s else s.

Inductive control : Type := Continue | Break.

(** Keyboard controls. *)
Definition keyboard (k : key) (heard : Speech.capture) (gps_coords : coords)
    (s : state) : control * state :=
  match k with
  | KeyQ => (Break, s)
  | KeyS =>
      if alcohol_test_active s then
        let speech_correct := Speech.verify_speech (test_text s) heard in
        if speech_correct then
          let s := set_alcohol_test_active false s in
          (Continue, set_alcohol_test_failed false s)
        else
          let s := set_alcohol_test_failed true s in
          let s := activate_external_buzzer s in
          let s := send_emergency_email AlcoholFailed gps_coords s in
          (Continue, set_alcohol_test_active false s)
      else (Continue, s)
  | KeyA => (Continue, s)   (* reads the sensor and prints *)
  | KeyR =>
      let s := set_accident_detected false s in
      let s := set_alcohol_test_failed false s in
      (Continue, deactivate_external_buzzer s)
  | KeyNone => (Continue, s)
  end.

(** The value [trigger_alert] has when the alert logic of this iteration
    runs. *)
Definition tick_trigger (f : frame) (s : state) : result bool :=
  let '(_, s) := sensor_phase f s in
  try (trigger_alert, _) := face_phase np_mean (rects f) s in
  Ok trigger_alert.

(** The globals right after the alert logic of this iteration. *)
Definition tick_alerted (f : frame) (s : state) : result state :=
  let '(gps_coords, s) := sensor_phase f s in
  try (trigger_alert, s) := face_phase np_mean (rects f) s in
  Ok (alert_logic trigger_alert (now f) gps_coords s).

(** The body of [while True]; the camera gives [None] when it has no
    frame. *)
Definition tick (input : option frame) (s : state) : result (control * state) :=
  match input with
  | None => Ok (Continue, s)
  | Some f =>
      let '(gps_coords, s) := sensor_phase f s in
      try (trigger_alert, s) := face_phase np_mean (rects f) s in
      let s := alert_logic trigger_alert (now f) gps_coords s in
      Ok (keyboard (pressed f) (speech f) gps_coords s)
  end.

(** [while True] over the frames the camera delivers, up to the [break]. *)
Fixpoint main_loop (inputs : list (option frame)) (s : state) : result state :=
  match inputs with
  | [] => Ok s
  | input :: rest =>
      try (ctl, s) := tick input s in
      match ctl with
      | Break => Ok s
      | Continue => main_loop rest s
      end
  end.

(** Cleanup after the loop. *)
Definition shutdown (s : state) : state :=
  let s := stop_beep_alert s in
  if buzzer_active s then deactivate_external_buzzer s else s.

Definition run (inputs : list (option frame)) : result state :=
  try s := main_loop inputs initial in
  Ok (shutdown s).

End Tick.

(** ** Vocabulary of the statements *)

(** The globals are consistent: the yawn test never meets an unset
    baseline, and the smoothing window is within its bound. *)
Definition calibration_ok (s : state) : Prop :=
  (CALIB_FRAMES <= calib_count s)%nat -> calib_base s <> None.

Definition window_ok (s : state) : Prop :=
  (length (lip_hist s) <= MAR_SMOOTH_WIN)%nat.

(** Globals that the face analysis leaves alone, and globals that only the
    face analysis writes. *)
Definition same_alerts (s s' : state) : Prop :=
  alert_active s' = alert_active s
  /\ beep_start_time s' = beep_start_time s
  /\ buzzer_active s' = buzzer_active s
  /\ alcohol_test_active s' = alcohol_test_active s
  /\ alcohol_test_failed s' = alcohol_test_failed s
  /\ accident_detected s' = accident_detected s
  /\ drowsiness_email_sent s' = drowsiness_email_sent s
  /\ out s' = out s.

Definition same_debounce (s s' : state) : Prop :=
  COUNTER s' = COUNTER s
  /\ lip_hist s' = lip_hist s
  /\ calib_base s' = calib_base s
  /\ calib_count s' = calib_count s.

(** The last [n] elements of a list. *)
Definition last_n {A : Type} (n : nat) (l : list A) : list A :=
  skipn (length l - n) l.

Definition has_fix (c : coords) : Prop := lat c <> None /\ lon c <> None.

(** Successive calls of [parse_gps_data], one per element of [polls]. *)
Fixpoint gps_polls (float : string -> option Q)
    (polls : list (option (list Gps.readline))) (last : coords) : coords :=
  match polls with
  | [] => last
  | p :: rest => gps_polls float rest (snd (Gps.parse_gps_data float p last))
  end.

Definition is_drowsiness_email (e : event) : bool :=
  match e with Email Drowsiness _ => true | _ => false end.

Definition is_accident_email (e : event) : bool :=
  match e with Email (Accident _) _ => true | _ => false end.

Definition count (p : event -> bool) (l : list event) : nat :=
  length (List.filter p l).

Definition is_stop_beep (e : event) : bool :=
  match e with StopBeep => true | _ => false end.

Definition is_quit (k : key) : bool :=
  match k with KeyQ => true | _ => false end.

(** A face with closed eyes. *)
Definition low_ear (x : face) : bool := Qlt_bool (face_ear x) EYE_AR_THRESH.

(** A frame with exactly one face, eyes closed, that does not end the
    loop. *)
Definition closed_eye_frame (f : frame) : bool :=
  match rects f with
  | [x] => Qlt_bool (face_ear x) EYE_AR_THRESH && negb (is_quit (pressed f))
  | _ => false
  end.

Definition open_eye_frame (f : frame) : bool :=
  match rects f with
  | [x] => negb (Qlt_bool (face_ear x) EYE_AR_THRESH)
  | _ => false
  end.

(** Every iteration over [inputs] that has a frame runs its alert logic
    with [trigger_alert] true. *)
Fixpoint sustained (float : string -> option Q)
    (np_mean : list float64 -> float64) (inputs : list (option frame))
    (s : state) : bool :=
  match inputs with
  | [] => true
  | None :: rest => sustained float np_mean rest s
  | Some f :: rest =>
      match tick_trigger float np_mean f s, tick float np_mean (Some f) s with
      | Ok true, Ok (Continue, s') => sustained float np_mean rest s'
      | Ok true, Ok (Break, _) => true
      | _, _ => false
      end
  end.

(** The theorems hold for every [np_mean].  The closed examples need one:
    a mean in binary64 that adds the readings from left to right and
    divides the sum by their number. *)
Fixpoint float_of_nat (n : nat) : float64 :=
  match n with
  | O => 0%float
  | S n => (float_of_nat n + 1)%float
  end.

Definition mean_seq (l : list float64) : float64 :=
  (fold_left PrimFloat.add l 0 / float_of_nat (length l))%float.

(** Frames for the worked examples: no GPS, no alcohol, no key. *)
Definition quiet (angle : option Q) (faces : list face) (clock : Q) : frame := {|
  gps_serial := None;
  tilt := angle;
  alcohol := None;
  sample := [];
  rects := faces;
  now := clock;
  pressed := KeyNone;
  speech := Speech.OtherError
|}.

(** Globals right after a calibration that ended with baseline [base] and
    smoothing window [window]. *)
Definition calibrated_at (base : float64) (window : list float64) : state :=
  set_calib_count CALIB_FRAMES
    (set_calib_base (Some base) (set_lip_hist window initial)).

(** A frame in which alcohol is detected and the driver, asked to read
    "apple banana computer elephant", is heard saying "apple banana". *)
Definition failed_sobriety_frame : frame := {|
  gps_serial := None;
  tilt := None;
  alcohol := Some 0.6;
  sample := ["apple"; "banana"; "computer"; "elephant"]%string;
  rects := [{| face_ear := 0.3; face_mar := 0.2%float |}];
  now := 100;
  pressed := KeyS;
  speech := Speech.Heard "apple banana"
|}.

Definition eyes_closed : face := {| face_ear := 0.2; face_mar := 0.2%float |}.
Definition eyes_open : face := {| face_ear := 0.3; face_mar := 0.2%float |}.

(** ** More vocabulary: invariants of the main loop *)

Definition is_alcohol_email (e : event) : bool :=
  match e with Email AlcoholFailed _ => true | _ => false end.

Definition is_key_s (k : key) : bool :=
  match k with KeyS => true | _ => false end.

(** The buzzer flag agrees with the concerns, and the start time is set
    exactly while the alert is active. *)
Definition buzzer_ok (s : state) : Prop :=
  (accident_detected s = true -> buzzer_active s = true)
  /\ (buzzer_active s = true ->
        accident_detected s = true \/ alert_active s = true
        \/ alcohol_test_failed s = true)
  /\ (alert_active s = true <-> beep_start_time s <> None).

(** The calibration counter stops at [CALIB_FRAMES], and a baseline exists
    as soon as one sample is taken. *)
Definition calib_inv (s : state) : Prop :=
  (calib_count s <= CALIB_FRAMES)%nat
  /\ ((0 < calib_count s)%nat -> calib_base s <> None).

(** Every face of the frame, if there is one, satisfies [face_ok]. *)
Definition input_ok (face_ok : face -> Prop) (input : option frame) : Prop :=
  match input with
  | None => True
  | Some f => Forall face_ok (rects f)
  end.

(** An iteration whose tilt reading, if any, is not above the threshold. *)
Definition not_tilted (input : option frame) : bool :=
  match input with
  | None => true
  | Some f => negb (fst (check_tilt_angle (tilt f)))
  end.

(** An iteration whose alcohol reading, if any, is not above the
    threshold. *)
Definition sober (input : option frame) : bool :=
  match input with
  | None => true
  | Some f => negb (check_alcohol_level (alcohol f))
  end.

(** A word of a prompt: not empty, no blank inside. *)
Fixpoint no_space (w : string) : bool :=
  match w with
  | EmptyString => true
  | String c r => negb (Speech.is_space c) && no_space r
  end.

Definition is_word (w : string) : bool :=
  match w with
  | EmptyString => false
  | _ => no_space w
  end.

(** The word list of [generate_random_text]. *)
Definition vocabulary : list string :=
  ["apple"; "banana"; "computer"; "elephant"; "freedom";
   "guitar"; "hospital"; "internet"; "jacket"; "kitchen"]%string.

(** ** GPS test script ([test_gps.py]) *)

Module GpsTest.

(** The dictionary [parse_gpgga] returns. *)
Record gga : Type := {
  gga_lat : Q;
  gga_lon : Q;
  quality : string;
  satellites : string;
  altitude : string
}.

Section Parser.

Variable float : string -> option Q.

(** [parse_gpgga(sentence)]; [None] is its [return None], also from the
    bare [except]. *)
Definition parse_gpgga (sentence : string) : option gga :=
  let parts := Gps.split_comma EmptyString sentence in
  if (length parts <? 10)%nat then None
  else if negb (Gps.truthy (nth 2 parts EmptyString))
          || negb (Gps.truthy (nth 4 parts EmptyString)) then None
  else
    let lat_raw := nth 2 parts EmptyString in
    match float (Gps.take 2 lat_raw), float (Gps.drop 2 lat_raw) with
    | Some lat_deg, Some lat_min =>
        let lat := lat_deg + lat_min / 60 in
        let lat := if String.eqb (nth 3 parts EmptyString) "S" then - lat else lat in
        let lon_raw := nth 4 parts EmptyString in
        match float (Gps.take 3 lon_raw), float (Gps.drop 3 lon_raw) with
        | Some lon_deg, Some lon_min =>
            let lon := lon_deg + lon_min / 60 in
            let lon := if String.eqb (nth 5 parts EmptyString) "W" then - lon else lon in
            Some {| gga_lat := lat;
                    gga_lon := lon;
                    quality := nth 6 parts EmptyString;
                    satellites := nth 7 parts EmptyString;
                    altitude := if (9 <? length parts)%nat
                                then nth 9 parts EmptyString else "N/A" |}
        | _, _ => None
        end
    | _, _ => None
    end.

(** [str.strip()]. *)
Fixpoint lstrip (s : string) : string :=
  match s with
  | EmptyString => EmptyString
  | String c r => if Speech.is_space c then lstrip r else s
  end.

Fixpoint rstrip (s : string) : string :=
  match s with
  | EmptyString => EmptyString
  | String c r =>
      match rstrip r with
      | EmptyString => if Speech.is_space c then EmptyString
                       else String c EmptyString
      | r' => String c r'
      end
  end.

Definition strip (s : string) : string := rstrip (lstrip s).

(** What the reading loop prints. *)
Inductive printed : Type :=
  | Raw (line : string)          (* "Raw: ..." *)
  | FixBanner                    (* "GPS FIX ACQUIRED!" *)
  | Reading (number : nat) (data : gga)
  | Waiting.                     (* "Waiting for GPS fix..." *)

Record monitor : Type := {
  fix_acquired : bool;
  valid_data_count : nat;
  shown : list printed
}.

Definition monitor_start : monitor :=
  {| fix_acquired := false; valid_data_count := 0; shown := [] |}.

Definition show (p : printed) (m : monitor) : monitor :=
  {| fix_acquired := fix_acquired m;
     valid_data_count := valid_data_count m;
     shown := shown m ++ [p] |}.

(** One pass of [while True] on the decoded line [raw]. *)
Definition monitor_step (raw : string) (m : monitor) : monitor :=
  let line := strip raw in
  if Gps.truthy line then
    let m := if String.prefix "$" line then show (Raw (Gps.take 60 line)) m
             else m in
    if String.prefix "$GPGGA" line || String.prefix "$GNGGA" line then
      match parse_gpgga line with
      | Some data =>
          let m := {| fix_acquired := fix_acquired m;
                      valid_data_count := valid_data_count m + 1;
                      shown := shown m |} in
          let m := if negb (fix_acquired m)
                   then {| fix_acquired := true;
                           valid_data_count := valid_data_count m;
                           shown := shown m ++ [FixBanner] |}
                   else m in
          show (Reading (valid_data_count m) data) m
      | None =>
          if negb (fix_acquired m) then show Waiting m else m
      end
    else m
  else m.

Definition monitor_run (lines : list string) : monitor :=
  fold_left (fun m raw => monitor_step raw m) lines monitor_start.

End Parser.

Definition is_banner (p : printed) : bool :=
  match p with FixBanner => true | _ => false end.

Definition is_reading (p : printed) : bool :=
  match p with Reading _ _ => true | _ => false end.

Definition is_waiting (p : printed) : bool :=
  match p with Waiting => true | _ => false end.

Definition count_printed (p : printed -> bool) (l : list printed) : nat :=
  length (List.filter p l).

(** No "Waiting for GPS fix" line after the banner. *)
Fixpoint quiet_after_banner (l : list printed) : bool :=
  match l with
  | [] => true
  | FixBanner :: rest => forallb (fun p => negb (is_waiting p)) rest
  | _ :: rest => quiet_after_banner rest
  end.

(** The counters of the reading loop and what it printed, in step. *)
Definition monitor_inv (m : monitor) : Prop :=
  fix_acquired m = (0 <? valid_data_count m)%nat
  /\ count_printed is_banner (shown m) = (if fix_acquired m then 1 else 0)%nat
  /\ count_printed is_reading (shown m) = valid_data_count m
  /\ quiet_after_banner (shown m) = true.

End GpsTest.

(** ** The monitor of the alcohol calibration ([calibrate_alcohol.py]) *)

Module Calibration.

(** [int(x)] on a number: truncation toward zero. *)
Definition int (x : Q) : Z := Z.quot (Qnum x) (Z.pos (Qden x)).

(** A cell of a progress bar: the full or the light block character. *)
Inductive cell : Type := Full | Light.

(** [ch * n] on a one-character string: empty when [n <= 0]. *)
Definition times (c : cell) (n : Z) : list cell := repeat c (Z.to_nat n).

(** The bar of the alcohol monitor, for the ADC value [value]. *)
Definition alcohol_bar (value : Q) : list cell :=
  let bar_length := int ((value / 1024) * 50) in
  times Full bar_length ++ times Light (50 - bar_length).

Definition is_full (c : cell) : bool :=
  match c with Full => true | Light => false end.

End Calibration.

(** * Properties *)

(** ** Comparisons *)

Lemma Qlt_bool_iff x y : Qlt_bool x y = true <-> x < y.
Proof.
  unfold Qlt_bool. rewrite negb_true_iff. split.
  - intros H. apply Qnot_le_lt. intros Hle.
    apply Qle_bool_iff in Hle. congruence.
  - intros H. destruct (Qle_bool y x) eqn:E; [|reflexivity].
    apply Qle_bool_iff in E. exfalso. exact (Qlt_not_le _ _ H E).
Qed.

Lemma Qlt_bool_false_iff x y : Qlt_bool x y = false <-> y <= x.
Proof.
  unfold Qlt_bool. rewrite negb_false_iff. apply Qle_bool_iff.
Qed.

(** ** Speech verification *)

Module SpeechFacts.
Import Speech.

Lemma ratio_threshold (a n : nat) :
  (0 < n)%nat ->
  Qge_bool (inject_Z (Z.of_nat a) / inject_Z (Z.of_nat n)) 0.75 = true
  <-> (3 * n <= 4 * a)%nat.
Proof.
  intros Hn. unfold Qge_bool. rewrite Qle_bool_iff.
  destruct n as [|k]; [lia|].
  unfold Qle, Qdiv, Qmult, Qinv, inject_Z. cbn [Qnum Qden].
  rewrite Nat2Z.inj_succ. unfold Z.succ.
  destruct (Z.of_nat k + 1)%Z eqn:E; try lia.
  cbn [Qnum Qden]. rewrite Pos.mul_1_l.
  assert (Z.pos p = Z.of_nat k + 1)%Z by lia. lia.
Qed.

Lemma ratio_one (n : nat) :
  (0 < n)%nat -> inject_Z (Z.of_nat n) / inject_Z (Z.of_nat n) == 1.
Proof.
  intros Hn. apply Qmult_inv_r. unfold Qeq. cbn. lia.
Qed.

Lemma ratio_mono (a b n : nat) :
  (a <= b)%nat ->
  inject_Z (Z.of_nat a) / inject_Z (Z.of_nat n)
  <= inject_Z (Z.of_nat b) / inject_Z (Z.of_nat n).
Proof.
  intros Hab. unfold Qdiv. apply Qmult_le_compat_r.
  - rewrite <- Zle_Qle. lia.
  - apply Qinv_le_0_compat. replace 0 with (inject_Z 0) by reflexivity.
    rewrite <- Zle_Qle. lia.
Qed.

Lemma is_space_lower_char c : is_space (lower_char c) = is_space c.
Proof. destruct c as [[] [] [] [] [] [] [] []]; reflexivity. Qed.

Lemma lower_snoc w c : lower (snoc w c) = snoc (lower w) (lower_char c).
Proof.
  unfold snoc. induction w as [|a w IH]; [reflexivity|].
  change (String (lower_char a) (lower (w +:+ String c EmptyString))
          = String (lower_char a) (lower w +:+ String (lower_char c) EmptyString)).
  now rewrite IH.
Qed.

Lemma flush_lower cur rest :
  flush (lower cur) (map lower rest) = map lower (flush cur rest).
Proof. destruct cur; reflexivity. Qed.

Lemma split_from_lower cur s :
  split_from (lower cur) (lower s) = map lower (split_from cur s).
Proof.
  revert cur. induction s as [|c r IH]; intros cur; cbn.
  - apply (flush_lower cur []).
  - rewrite is_space_lower_char. destruct (is_space c).
    + rewrite <- flush_lower. f_equal. apply (IH EmptyString).
    + rewrite <- lower_snoc. apply IH.
Qed.

Lemma split_lower s : split (lower s) = map lower (split s).
Proof. apply (split_from_lower EmptyString). Qed.

Lemma elem_of_words_lower w s :
  w ∈ words (lower s) <-> exists w', w' ∈ split s /\ w = lower w'.
Proof.
  unfold words. rewrite split_lower, elem_of_list_to_set, list_elem_of_fmap.
  split; intros (w' & H1 & H2); exists w'; tauto.
Qed.

Lemma words_nonempty s : split s <> [] -> (0 < size (words (lower s)))%nat.
Proof.
  intros H. destruct (split s) as [|w l] eqn:E; [congruence|].
  assert (Hin : lower w ∈ words (lower s)).
  { apply elem_of_words_lower. exists w. rewrite E. split; [left|reflexivity]. }
  destruct (size (words (lower s))) eqn:Hs; [|lia].
  apply size_empty_inv in Hs. apply Hs in Hin.
  destruct (not_elem_of_empty (C := gset string) _ Hin).
Qed.

Lemma split_from_app cur t more :
  split_from cur (t +:+ String " " more) = (split_from cur t ++ split more)%list.
Proof.
  revert cur. induction t as [|c r IH]; intros cur.
  - destruct cur; reflexivity.
  - change (split_from cur (String c (r +:+ String " " more))
            = (split_from cur (String c r) ++ split more)%list).
    cbn [split_from]. destruct (is_space c).
    + rewrite IH. destruct cur; reflexivity.
    + apply IH.
Qed.

(** The pass condition in whole numbers. *)
Lemma verify_speech_heard (expected : string) (heard : capture) :
  verify_speech expected heard = true <->
  exists text, heard = Heard text /\
    (0 < size (words (lower expected)))%nat /\
    (3 * size (words (lower expected))
     <= 4 * size (words (lower expected) ∩ words (lower text)))%nat.
Proof.
  destruct heard as [text| | |]; cbn [verify_speech];
    try (split; [discriminate | intros (t & Ht & _); discriminate]).
  unfold match_ratio.
  set (E := words (lower expected)). set (S := words (lower text)).
  destruct (size E) as [|k] eqn:HE.
  - split; [discriminate | intros (t & _ & Hpos & _); lia].
  - rewrite ratio_threshold by lia. split.
    + intros H. exists text. split; [reflexivity|]. split; [lia | exact H].
    + intros (t & Ht & _ & H). injection Ht as <-. exact H.
Qed.

(** C7.  [verify_speech] passes exactly when a transcript was captured and
    the share of prompt words found in it is at least 0.75 (with at least
    one prompt word); a listening timeout, unintelligible audio or any other
    capture error gives [false].  For the four-word prompt, hearing all four
    words gives ratio 1 and passes, hearing two gives ratio 0.5 and fails. *)
Theorem verify_speech_threshold (expected : string) (heard : capture) :
  (verify_speech expected heard = true <->
     exists text, heard = Heard text /\
       (0 < size (words (lower expected)))%nat /\
       (3 * size (words (lower expected))
        <= 4 * size (words (lower expected) ∩ words (lower text)))%nat)
  /\ verify_speech expected WaitTimeoutError = false
  /\ verify_speech expected UnknownValueError = false
  /\ verify_speech expected OtherError = false
  /\ (exists r, match_ratio "apple banana computer elephant"
                  "apple banana computer elephant" = Some r /\ r == 1)
  /\ verify_speech "apple banana computer elephant"
       (Heard "apple banana computer elephant") = true
  /\ (exists r, match_ratio "apple banana computer elephant"
                  "apple banana" = Some r /\ r == 0.5)
  /\ verify_speech "apple banana computer elephant"
       (Heard "apple banana") = false.
Proof.
  split; [apply verify_speech_heard|].
  repeat apply conj; try (vm_compute; reflexivity);
    (eexists; split; [vm_compute; reflexivity | reflexivity]).
Qed.

(** C9.  Matching ignores letter case, word order and repetition: when
    every prompt word occurs in the transcript up to letter case, the ratio
    is 1 and the test passes, also with further words appended; and for any
    prompt a transcript with more words never has a smaller ratio. *)
Theorem verify_speech_insensitive (prompt transcript : string) :
  split prompt <> [] ->
  Forall (fun w => Exists (fun w' => lower w' = lower w) (split transcript))
         (split prompt) ->
  (exists r, match_ratio (lower prompt) (lower transcript) = Some r /\ r == 1)
  /\ verify_speech prompt (Heard transcript) = true
  /\ (forall more : string,
        verify_speech prompt (Heard (transcript +:+ String " " more)) = true)
  /\ (forall p t1 t2 r1,
        (forall w, w ∈ split t1 -> w ∈ split t2) ->
        match_ratio (lower p) (lower t1) = Some r1 ->
        exists r2, match_ratio (lower p) (lower t2) = Some r2 /\ r1 <= r2).
Proof.
  intros Hne Hall.
  assert (Hmono : forall p t1 t2 r1,
        (forall w, w ∈ split t1 -> w ∈ split t2) ->
        match_ratio (lower p) (lower t1) = Some r1 ->
        exists r2, match_ratio (lower p) (lower t2) = Some r2 /\ r1 <= r2).
  { intros p t1 t2 r1 Hsub. unfold match_ratio.
    destruct (size (words (lower p))) as [|k] eqn:HE; [discriminate|].
    intros [= <-]. eexists; split; [reflexivity|].
    apply ratio_mono, subseteq_size. intros w Hw.
    apply elem_of_intersection in Hw as [Hw1 Hw2].
    apply elem_of_intersection; split; [exact Hw1|].
    apply elem_of_words_lower in Hw2 as (w' & Hin & ->).
    apply elem_of_words_lower. exists w'. split; [auto | reflexivity]. }
  assert (Hsub : words (lower prompt) ⊆ words (lower transcript)).
  { intros w Hw. apply elem_of_words_lower in Hw as (w' & Hin & ->).
    rewrite Forall_forall in Hall. specialize (Hall w' Hin).
    apply Exists_exists in Hall as (v & Hv & Heq).
    apply elem_of_words_lower. exists v. split; [exact Hv | congruence]. }
  assert (Hinter : words (lower prompt) ∩ words (lower transcript)
                   = words (lower prompt))
    by (apply subseteq_intersection_1_L, Hsub).
  pose proof (words_nonempty prompt Hne) as Hpos.
  assert (Hratio : exists r, match_ratio (lower prompt) (lower transcript) = Some r
                             /\ r == 1).
  { unfold match_ratio. rewrite Hinter.
    destruct (size (words (lower prompt))) as [|k] eqn:HE; [lia|].
    eexists; split; [reflexivity|]. apply ratio_one. lia. }
  assert (Hpass : forall t, words (lower prompt) ⊆ words (lower t) ->
                            verify_speech prompt (Heard t) = true).
  { intros t Ht. apply verify_speech_heard. exists t.
    assert (Hi : words (lower prompt) ∩ words (lower t) = words (lower prompt))
      by (apply subseteq_intersection_1_L, Ht).
    rewrite Hi. split; [reflexivity|]. split; [exact Hpos | lia]. }
  repeat apply conj; [exact Hratio | apply Hpass, Hsub | | exact Hmono].
  intros more. apply Hpass. intros w Hw. specialize (Hsub w Hw).
  apply elem_of_words_lower in Hsub as (w' & Hin & ->).
  apply elem_of_words_lower. exists w'. split; [|reflexivity].
  unfold split. rewrite split_from_app. apply elem_of_app. left. exact Hin.
Qed.

Lemma verify_speech_insensitive_witness :
  verify_speech "apple banana computer elephant"
    (Heard "uh ELEPHANT Banana apple apple the COMPUTER ok") = true.
Proof.
  refine (proj1 (proj2 (verify_speech_insensitive
            "apple banana computer elephant"
            "uh ELEPHANT Banana apple apple the COMPUTER ok" _ _))).
  - vm_compute. discriminate.
  - apply (bool_decide_unpack _). vm_compute. exact I.
Defined.

End SpeechFacts.

(** ** GPS *)

Module GpsFacts.
Import Gps.

Section Parser.

Variable float : string -> option Q.

Lemma parse_sentence_fix line c :
  parse_sentence float line = Fix c -> has_fix c.
Proof.
  unfold parse_sentence.
  destruct (_ || _); [|discriminate].
  destruct (_ && _); [|discriminate].
  destruct (float (take 2 _)); [|discriminate].
  destruct (float (drop 2 _)); [|discriminate].
  destruct (float (take 3 _)); [|discriminate].
  destruct (float (drop 3 _)); [|discriminate].
  intros [= <-]. split; discriminate.
Qed.

Lemma read_lines_fix n port c :
  read_lines float n port = Fix c ->
  exists line, In (Line line) (firstn n port) /\ parse_sentence float line = Fix c.
Proof.
  revert port. induction n as [|n IH]; intros port; cbn [read_lines].
  - discriminate.
  - destruct port as [|r rest]; cbn [next_read].
    + destruct (parse_sentence float EmptyString) eqn:E.
      * cbv in E. discriminate.
      * intros H. apply IH in H as (line & Hin & _).
        rewrite firstn_nil in Hin. destruct Hin.
      * discriminate.
    + destruct r as [line|]; [|discriminate].
      destruct (parse_sentence float line) eqn:E.
      * intros [= <-]. exists line. split; [left; reflexivity | exact E].
      * intros H. apply IH in H as (l & Hin & Hl). exists l.
        split; [right; exact Hin | exact Hl].
      * discriminate.
Qed.

Lemma parse_gps_data_cases port last :
  let r := parse_gps_data float port last in
  fst r = snd r /\
  (snd r = last \/
   exists lines line,
     port = Some lines /\ In (Line line) (firstn 10 lines) /\
     parse_sentence float line = Fix (snd r)).
Proof.
  unfold parse_gps_data. destruct port as [lines|]; cbv zeta.
  - destruct (read_lines float 10 lines) eqn:E; cbn [fst snd]; split; auto.
    right. apply read_lines_fix in E as (line & Hin & Hl).
    exists lines, line. auto.
  - cbn [fst snd]. auto.
Qed.

Lemma parse_gps_data_has_fix port last :
  has_fix last -> has_fix (snd (parse_gps_data float port last)).
Proof.
  intros H. destruct (parse_gps_data_cases port last) as [_ [-> | (ls & l & _ & _ & Hl)]].
  - exact H.
  - exact (parse_sentence_fix _ _ Hl).
Qed.

(** C8.  The fix is last-known-good: a call of [parse_gps_data] that does
    not obtain a fully parsed GPGGA/GNGGA sentence (no device, a serial
    error, a failed number conversion, empty or missing fields, or no such
    sentence among the ten lines read) returns the stored coordinates and
    leaves them exactly as they were; a new fix only comes from a sentence
    that parsed completely and sets both coordinates; so over any sequence
    of calls a stored fix never goes back to [None].  A sentence with empty
    fields after the fix (40.0, -73.0) leaves that fix unchanged. *)
Theorem gps_last_known_good
    (polls : list (option (list readline))) (port : option (list readline))
    (last : coords) :
  (forall lines c, port = Some lines -> read_lines float 10 lines <> Fix c) ->
  parse_gps_data float port last = (last, last)
  /\ (forall s f, last_gps_coords s = last -> gps_serial f = port ->
        fst (sensor_phase float f s) = last
        /\ last_gps_coords (snd (sensor_phase float f s)) = last)
  /\ (forall lines c, read_lines float 10 lines = Fix c ->
        has_fix c
        /\ (exists line, In (Line line) (firstn 10 lines)
                         /\ parse_sentence float line = Fix c))
  /\ (has_fix last -> has_fix (gps_polls float polls last))
  /\ parse_gps_data float (Some [Line "$GPGGA,123519,,N,,W,1,08"])
       {| lat := Some 40.0; lon := Some (-73.0) |}
     = ({| lat := Some 40.0; lon := Some (-73.0) |},
        {| lat := Some 40.0; lon := Some (-73.0) |}).
Proof.
  intros Hbad.
  assert (Hsame : parse_gps_data float port last = (last, last)).
  { unfold parse_gps_data. destruct port as [lines|]; [|reflexivity].
    destruct (read_lines float 10 lines) eqn:E; try reflexivity.
    destruct (Hbad lines c eq_refl E). }
  split; [exact Hsame|]. split; [|split; [|split]].
  - intros s f Hs Hf. unfold sensor_phase. rewrite Hs, Hf, Hsame.
    destruct (check_tilt_angle (tilt f)) as [t a].
    destruct (_ && _); destruct (_ && _); split; reflexivity.
  - intros lines c Hc. pose proof (read_lines_fix _ _ _ Hc) as (line & Hin & Hl).
    split; [exact (parse_sentence_fix _ _ Hl) | exists line; auto].
  - clear Hbad Hsame. revert last.
    induction polls as [|p rest IH]; intros last Hfix; cbn [gps_polls].
    + exact Hfix.
    + apply IH, parse_gps_data_has_fix, Hfix.
  - reflexivity.
Qed.

End Parser.

Lemma gps_last_known_good_witness :
  parse_gps_data decimal_float
    (Some [Line "$GPGGA,123519,40x0.000,N,07300.000,W,1,08,0.9,545.4,M,46.9,M,,*47";
           SerialError])
    {| lat := Some 40.0; lon := Some (-73.0) |}
  = ({| lat := Some 40.0; lon := Some (-73.0) |},
     {| lat := Some 40.0; lon := Some (-73.0) |}).
Proof.
  refine (proj1 (gps_last_known_good decimal_float [] _ _ _)).
  intros lines c [= <-]. vm_compute. discriminate.
Defined.

End GpsFacts.

(** ** Smoothing window *)

Lemma last_n_length {A} n (l : list A) : length (last_n n l) = Nat.min n (length l).
Proof. unfold last_n. rewrite length_skipn. lia. Qed.

Lemma last_n_all {A} n (l : list A) : (length l <= n)%nat -> last_n n l = l.
Proof.
  intros H. unfold last_n. replace (length l - n)%nat with 0%nat by lia.
  reflexivity.
Qed.

Lemma last_n_suffix {A} n (a b l2 : list A) :
  length a = (length (a ++ b) - n)%nat ->
  last_n n (b ++ l2) = last_n n ((a ++ b) ++ l2).
Proof.
  intros Ha. unfold last_n. rewrite <- app_assoc.
  rewrite (skipn_app (length (a ++ b ++ l2) - n)).
  rewrite !length_app in *.
  rewrite (skipn_all2 a) by lia. cbn [app]. f_equal. lia.
Qed.

Lemma last_n_app {A} n (l l2 : list A) :
  last_n n (last_n n l ++ l2) = last_n n (l ++ l2).
Proof.
  rewrite <- (firstn_skipn (length l - n) l) at 2.
  unfold last_n at 2. apply last_n_suffix.
  rewrite firstn_skipn, length_firstn. lia.
Qed.

Lemma push_lip_last_n mar hist :
  (length hist <= MAR_SMOOTH_WIN)%nat ->
  push_lip mar hist = last_n MAR_SMOOTH_WIN (hist ++ [mar]).
Proof.
  intros H. unfold push_lip, last_n. rewrite length_app. cbn [length].
  destruct (Nat.ltb_spec MAR_SMOOTH_WIN (length hist + 1)) as [Hlt|Hge].
  - replace (length hist + 1 - MAR_SMOOTH_WIN)%nat with 1%nat by lia.
    reflexivity.
  - replace (length hist + 1 - MAR_SMOOTH_WIN)%nat with 0%nat by lia.
    reflexivity.
Qed.

(** ** Face analysis *)

Lemma same_alerts_refl s : same_alerts s s.
Proof. unfold same_alerts. tauto. Qed.

Lemma same_alerts_trans s1 s2 s3 :
  same_alerts s1 s2 -> same_alerts s2 s3 -> same_alerts s1 s3.
Proof. unfold same_alerts. intuition congruence. Qed.

Lemma same_debounce_refl s : same_debounce s s.
Proof. unfold same_debounce. tauto. Qed.

Lemma same_debounce_trans s1 s2 s3 :
  same_debounce s1 s2 -> same_debounce s2 s3 -> same_debounce s1 s3.
Proof. unfold same_debounce. intuition congruence. Qed.

Lemma same_debounce_ok s s' :
  same_debounce s s' ->
  (calibration_ok s -> calibration_ok s') /\ (window_ok s -> window_ok s').
Proof.
  unfold same_debounce, calibration_ok, window_ok.
  intros (_ & -> & -> & ->). tauto.
Qed.

Section FaceAnalysis.

Variable np_mean : list float64 -> float64.

(** What [mouth_update] does, by phase of the calibration. *)
Lemma mouth_update_spec mar s :
  window_ok s -> calibration_ok s ->
  exists yawn s',
    mouth_update np_mean mar s = Ok (yawn, s')
    /\ same_alerts s s'
    /\ COUNTER s' = COUNTER s
    /\ lip_hist s' = last_n MAR_SMOOTH_WIN (lip_hist s ++ [mar])
    /\ ((calib_count s < CALIB_FRAMES)%nat ->
          yawn = false
          /\ calib_count s' = S (calib_count s)
          /\ calib_base s' =
               Some match calib_base s with
                    | None => np_mean (lip_hist s')
                    | Some b => ((b + np_mean (lip_hist s')) / 2)%float
                    end)
    /\ ((CALIB_FRAMES <= calib_count s)%nat ->
          calib_count s' = calib_count s
          /\ calib_base s' = calib_base s
          /\ exists b, calib_base s = Some b
               /\ yawn = (b * MAR_MULTIPLIER <? np_mean (lip_hist s'))%float).
Proof.
  intros Hw Hc. unfold mouth_update.
  destruct s as [aa bst ba ata tt atf ad gps cnt hist base cc des o].
  unfold window_ok, calibration_ok in *. cbn in Hw, Hc.
  cbn [set_lip_hist set_calib_base set_calib_count lip_hist calib_count
       calib_base alert_active beep_start_time buzzer_active
       alcohol_test_active test_text alcohol_test_failed accident_detected
       last_gps_coords COUNTER drowsiness_email_sent out].
  rewrite (push_lip_last_n mar hist Hw).
  destruct (Nat.ltb_spec cc CALIB_FRAMES) as [Hlt|Hge].
  - eexists _, _. split; [reflexivity|].
    unfold same_alerts; cbn. repeat apply conj; try reflexivity.
    + intros _. repeat apply conj; [reflexivity | lia | reflexivity].
    + intros H. lia.
  - destruct base as [b|]; [|destruct (Hc Hge eq_refl)].
    eexists _, _. split; [reflexivity|].
    unfold same_alerts; cbn. repeat apply conj; try reflexivity.
    + intros H. lia.
    + intros _. repeat apply conj; try reflexivity.
      exists b. split; reflexivity.
Qed.

Lemma eye_update_spec ear s :
  let '(drowsy, s') := eye_update ear s in
  same_alerts s s'
  /\ lip_hist s' = lip_hist s
  /\ calib_base s' = calib_base s
  /\ calib_count s' = calib_count s
  /\ (ear < EYE_AR_THRESH ->
        COUNTER s' = S (COUNTER s)
        /\ drowsy = (EYE_AR_CONSEC_FRAMES <=? S (COUNTER s))%nat)
  /\ (EYE_AR_THRESH <= ear -> COUNTER s' = 0%nat /\ drowsy = false).
Proof.
  unfold eye_update. destruct (Qlt_bool ear EYE_AR_THRESH) eqn:E.
  - apply Qlt_bool_iff in E. destruct s; unfold same_alerts; cbn.
    repeat apply conj; try reflexivity.
    + intros _. rewrite Nat.add_1_r. split; reflexivity.
    + intros H. destruct (Qlt_not_le _ _ E H).
  - apply Qlt_bool_false_iff in E. destruct s; unfold same_alerts; cbn.
    repeat apply conj; try reflexivity.
    + intros H. destruct (Qlt_not_le _ _ H E).
    + intros _. split; reflexivity.
Qed.

Lemma face_step_spec f t s :
  window_ok s -> calibration_ok s ->
  exists yawn drowsy s',
    face_step np_mean f t s = Ok (t || yawn || drowsy, s')
    /\ same_alerts s s' /\ window_ok s' /\ calibration_ok s'
    /\ lip_hist s' = last_n MAR_SMOOTH_WIN (lip_hist s ++ [face_mar f])
    /\ calib_count s' =
         (if (calib_count s <? CALIB_FRAMES)%nat
          then S (calib_count s) else calib_count s)
    /\ ((calib_count s < CALIB_FRAMES)%nat -> yawn = false)
    /\ ((CALIB_FRAMES <= calib_count s)%nat ->
          calib_base s' = calib_base s
          /\ exists b, calib_base s = Some b
               /\ yawn = (b * MAR_MULTIPLIER <? np_mean (lip_hist s'))%float)
    /\ (face_ear f < EYE_AR_THRESH ->
          COUNTER s' = S (COUNTER s)
          /\ drowsy = (EYE_AR_CONSEC_FRAMES <=? S (COUNTER s))%nat)
    /\ (EYE_AR_THRESH <= face_ear f -> COUNTER s' = 0%nat /\ drowsy = false).
Proof.
  intros Hw Hc.
  destruct (mouth_update_spec (face_mar f) s Hw Hc)
    as (yawn & s1 & Hm & Hal & Hcnt & Hhist & Hcal & Hdone).
  pose proof (eye_update_spec (face_ear f) s1) as He.
  destruct (eye_update (face_ear f) s1) as [drowsy s'] eqn:Ee.
  destruct He as (Hal' & Hh' & Hb' & Hc' & Hlow & Hhigh).
  exists yawn, drowsy, s'. unfold face_step. rewrite Hm. cbn [bind].
  rewrite Ee. split; [reflexivity|].
  split; [exact (same_alerts_trans _ _ _ Hal Hal')|].
  assert (Hcc : calib_count s' =
                (if (calib_count s <? CALIB_FRAMES)%nat
                 then S (calib_count s) else calib_count s)).
  { rewrite Hc'. destruct (Nat.ltb_spec (calib_count s) CALIB_FRAMES) as [H|H].
    - apply Hcal, H.
    - apply Hdone, H. }
  split.
  { unfold window_ok. rewrite Hh', Hhist, last_n_length. lia. }
  split.
  { unfold calibration_ok. rewrite Hb', Hcc.
    destruct (Nat.ltb_spec (calib_count s) CALIB_FRAMES) as [H|H]; intros _.
    - destruct (Hcal H) as (_ & _ & ->). discriminate.
    - destruct (Hdone H) as (_ & -> & _). exact (Hc H). }
  split; [congruence|]. split; [exact Hcc|].
  split; [intros H; apply Hcal, H|].
  split.
  { intros H. destruct (Hdone H) as (_ & Hb & b & Hsb & Hy).
    split; [congruence|]. exists b. split; [exact Hsb|]. rewrite Hh'. exact Hy. }
  rewrite <- Hcnt. split; [exact Hlow | exact Hhigh].
Qed.

Lemma face_loop_spec fs : forall t s,
  window_ok s -> calibration_ok s ->
  exists t' s',
    face_loop np_mean fs t s = Ok (t', s')
    /\ same_alerts s s' /\ window_ok s' /\ calibration_ok s'
    /\ lip_hist s' = last_n MAR_SMOOTH_WIN (lip_hist s ++ map face_mar fs)
    /\ calib_count s' =
         Nat.max (calib_count s)
                 (Nat.min CALIB_FRAMES (calib_count s + length fs))
    /\ (t = true -> t' = true)
    /\ (forallb low_ear fs = true ->
          COUNTER s' = (COUNTER s + length fs)%nat
          /\ ((EYE_AR_CONSEC_FRAMES <= COUNTER s + length fs)%nat ->
              fs <> [] -> t' = true)).
Proof.
  induction fs as [|f rest IH]; intros t s Hw Hc; cbn [face_loop].
  - exists t, s. split; [reflexivity|].
    split; [apply same_alerts_refl|]. split; [exact Hw|]. split; [exact Hc|].
    cbn [map length]. rewrite app_nil_r, !Nat.add_0_r.
    split; [symmetry; apply last_n_all, Hw|].
    split; [lia|]. split; [tauto|]. intros _. split; [reflexivity|congruence].
  - destruct (face_step_spec f t s Hw Hc)
      as (yawn & drowsy & s1 & Hs & Hal & Hw1 & Hc1 & Hh & Hcc & _ & _ & Hlow & _).
    destruct (IH (t || yawn || drowsy) s1 Hw1 Hc1)
      as (t' & s' & Hl & Hal' & Hw' & Hc' & Hh' & Hcc' & Ht & Hcnt).
    exists t', s'. rewrite Hs. cbn [bind]. split; [exact Hl|].
    split; [exact (same_alerts_trans _ _ _ Hal Hal')|].
    split; [exact Hw'|]. split; [exact Hc'|].
    split.
    { rewrite Hh', Hh, last_n_app, <- app_assoc. reflexivity. }
    split.
    { rewrite Hcc', Hcc. cbn [length].
      destruct (Nat.ltb_spec (calib_count s) CALIB_FRAMES); lia. }
    split.
    { intros ->. apply Ht. reflexivity. }
    cbn [forallb length]. intros Hall.
    apply andb_prop in Hall as [Hf Hrest]. apply Qlt_bool_iff in Hf.
    destruct (Hlow Hf) as [Hk Hd]. destruct (Hcnt Hrest) as [Hk' Htrig].
    split; [lia|]. intros Hge _.
    destruct rest as [|g rest'].
    + cbn [face_loop] in Hl. injection Hl as <- <-.
      rewrite Hd. cbn [length] in Hge.
      replace (EYE_AR_CONSEC_FRAMES <=? S (COUNTER s))%nat with true.
      * destruct t, yawn; reflexivity.
      * symmetry. apply Nat.leb_le. lia.
    + apply Htrig; [cbn [length] in *; lia | discriminate].
Qed.

End FaceAnalysis.

(** ** The phases of one iteration *)

Lemma count_app p l l' : count p (l ++ l') = (count p l + count p l')%nat.
Proof. unfold count. rewrite List.filter_app, length_app. reflexivity. Qed.

#[local] Arguments count : simpl never.

Ltac count_norm :=
  rewrite ?count_app;
  repeat match goal with
    | |- context [count ?p (?e :: ?l)] =>
        let v := eval cbv in (count p (e :: l)) in
        change (count p (e :: l)) with v
    | |- context [count ?p []] => change (count p []) with 0%nat
    end.

Ltac flat_state s :=
  destruct s as [aa bst ba ata tt atf ad gps cnt hist base cc des o];
  unfold same_alerts, same_debounce;
  cbn [alert_active beep_start_time buzzer_active alcohol_test_active
       test_text alcohol_test_failed accident_detected last_gps_coords
       COUNTER lip_hist calib_base calib_count drowsiness_email_sent out] in *.

Section Phases.

Variable float : string -> option Q.
Variable np_mean : list float64 -> float64.

Lemma sensor_phase_spec f s :
  let tilted := fst (check_tilt_angle (tilt f)) && negb (accident_detected s) in
  let '(g, s1) := sensor_phase float f s in
  same_debounce s s1
  /\ alert_active s1 = alert_active s
  /\ beep_start_time s1 = beep_start_time s
  /\ drowsiness_email_sent s1 = drowsiness_email_sent s
  /\ alcohol_test_failed s1 = alcohol_test_failed s
  /\ accident_detected s1 = accident_detected s || fst (check_tilt_angle (tilt f))
  /\ buzzer_active s1 = buzzer_active s || tilted
  /\ out s1 = out s ++ (if tilted
                        then [BuzzerOn;
                              Email (Accident (snd (check_tilt_angle (tilt f)))) g]
                        else []).
Proof.
  unfold sensor_phase.
  destruct (Gps.parse_gps_data float (gps_serial f) (last_gps_coords s))
    as [g last].
  destruct (check_tilt_angle (tilt f)) as [is_tilted angle].
  flat_state s. cbn [fst snd].
  destruct is_tilted, ad;
    cbn -[check_alcohol_level generate_random_text];
    destruct (negb ata && check_alcohol_level (alcohol f));
    cbn; rewrite ?app_nil_r, ?orb_true_r, ?orb_false_r, <- ?app_assoc;
    repeat apply conj; reflexivity.
Qed.

Lemma alert_logic_debounce t clock g s :
  let s' := alert_logic t clock g s in
  same_debounce s s'
  /\ accident_detected s' = accident_detected s
  /\ alcohol_test_active s' = alcohol_test_active s
  /\ alcohol_test_failed s' = alcohol_test_failed s
  /\ count is_accident_email (out s') = count is_accident_email (out s).
Proof.
  unfold alert_logic. flat_state s.
  destruct t, aa, ad, ba, des; cbn;
    try (destruct bst as [t0|]; cbn;
         [destruct (negb (Qeq_bool t0 0) && Qge_bool (clock - t0) BEEP_DURATION)|];
         cbn);
    count_norm; cbn; repeat apply conj; try reflexivity; lia.
Qed.

(** The alert logic on a triggered iteration. *)
Lemma alert_logic_triggered clock g s :
  let s' := alert_logic true clock g s in
  alert_active s' = true
  /\ (alert_active s = false ->
        beep_start_time s' = Some clock
        /\ drowsiness_email_sent s' = false
        /\ buzzer_active s' = buzzer_active s
        /\ out s' = out s ++ [PlayBeep])
  /\ (alert_active s = true ->
        beep_start_time s' = beep_start_time s
        /\ (drowsiness_email_sent s = true ->
              drowsiness_email_sent s' = true
              /\ count is_drowsiness_email (out s')
                 = count is_drowsiness_email (out s))
        /\ (drowsiness_email_sent s = false ->
              (drowsiness_email_sent s' = false
               /\ count is_drowsiness_email (out s')
                  = count is_drowsiness_email (out s))
              \/ (drowsiness_email_sent s' = true
                  /\ count is_drowsiness_email (out s')
                     = S (count is_drowsiness_email (out s))))).
Proof.
  unfold alert_logic. flat_state s.
  destruct aa; cbn.
  - split; [|split; [discriminate|intros _]].
    + destruct bst as [t0|]; [|reflexivity].
      destruct (_ && _); destruct ba, des; reflexivity.
    + destruct bst as [t0|]; cbn.
      * destruct (_ && _); destruct ba, des; cbn;
          count_norm; cbn;
          (split; [reflexivity|]); split;
          try discriminate; intros _;
          try (split; [reflexivity|]; lia);
          try (left; split; [reflexivity|]; lia);
          try (right; split; [reflexivity|]; lia).
      * destruct des; (split; [reflexivity|]); split;
          try discriminate; intros _;
          try (split; reflexivity); left; split; reflexivity.
  - split; [reflexivity|]. split; [intros _|discriminate].
    repeat apply conj; reflexivity.
Qed.

(** The alert logic on an iteration that is not triggered. *)
Lemma alert_logic_clear clock g s :
  let s' := alert_logic false clock g s in
  drowsiness_email_sent s' = drowsiness_email_sent s
  /\ count is_drowsiness_email (out s') = count is_drowsiness_email (out s)
  /\ (accident_detected s = false ->
        alert_active s' = false
        /\ beep_start_time s' = None
        /\ buzzer_active s' = false
        /\ out s' = out s
                    ++ (if alert_active s then [StopBeep] else [])
                    ++ (if buzzer_active s then [BuzzerOff] else []))
  /\ (accident_detected s = true -> s' = s).
Proof.
  unfold alert_logic. flat_state s.
  destruct aa, ad, ba; cbn; count_norm; cbn;
    rewrite ?app_nil_r, <- ?app_assoc;
    repeat apply conj; try reflexivity; try discriminate; try lia;
    intros _; repeat apply conj; reflexivity.
Qed.

Lemma keyboard_spec k heard g s :
  let '(ctl, s') := keyboard k heard g s in
  same_debounce s s'
  /\ alert_active s' = alert_active s
  /\ beep_start_time s' = beep_start_time s
  /\ drowsiness_email_sent s' = drowsiness_email_sent s
  /\ count is_drowsiness_email (out s') = count is_drowsiness_email (out s)
  /\ count is_accident_email (out s') = count is_accident_email (out s)
  /\ (k <> KeyR -> accident_detected s' = accident_detected s)
  /\ (k = KeyR ->
        accident_detected s' = false
        /\ alcohol_test_failed s' = false
        /\ buzzer_active s' = false)
  /\ (ctl = Break <-> k = KeyQ).
Proof.
  unfold keyboard. flat_state s.
  destruct k; cbn -[Speech.verify_speech];
    try (destruct ata; cbn -[Speech.verify_speech];
         [destruct (Speech.verify_speech tt heard); cbn|]);
    count_norm; cbn;
    repeat apply conj; try reflexivity; try congruence; try lia;
    try (intros _; repeat apply conj; reflexivity);
    try (split; congruence).
Qed.

Lemma face_phase_spec fs s :
  window_ok s -> calibration_ok s ->
  exists t s',
    face_phase np_mean fs s = Ok (t, s')
    /\ window_ok s' /\ calibration_ok s'
    /\ accident_detected s' = accident_detected s
    /\ alcohol_test_active s' = alcohol_test_active s
    /\ alcohol_test_failed s' = alcohol_test_failed s
    /\ drowsiness_email_sent s' = drowsiness_email_sent s
    /\ count is_drowsiness_email (out s') = count is_drowsiness_email (out s)
    /\ count is_accident_email (out s') = count is_accident_email (out s)
    /\ (fs <> [] -> same_alerts s s' /\ face_loop np_mean fs false s = Ok (t, s'))
    /\ (fs = [] ->
          t = false /\ COUNTER s' = 0%nat
          /\ lip_hist s' = lip_hist s
          /\ calib_base s' = calib_base s
          /\ calib_count s' = calib_count s
          /\ (accident_detected s = true \/ alcohol_test_active s = true ->
                same_alerts s s')
          /\ (accident_detected s = false -> alcohol_test_active s = false ->
                alert_active s' = false
                /\ beep_start_time s' = None
                /\ buzzer_active s' = false
                /\ out s' = out s
                            ++ (if alert_active s then [StopBeep] else [])
                            ++ (if buzzer_active s then [BuzzerOff] else []))).
Proof.
  intros Hw Hc. destruct fs as [|f rest].
  - unfold window_ok, calibration_ok in *. unfold face_phase.
    flat_state s.
    destruct ad, ata, aa, ba; cbn; eexists _, _;
      (split; [reflexivity|]); cbn; count_norm;
      rewrite ?app_nil_r, <- ?app_assoc;
      repeat apply conj; try reflexivity; try assumption; try lia;
      try congruence;
      try (intros _; repeat apply conj; try reflexivity;
           try (intros [?|?]; try discriminate; repeat apply conj; reflexivity);
           try discriminate;
           intros; try discriminate; repeat apply conj; reflexivity).
  - destruct (face_loop_spec np_mean (f :: rest) false s Hw Hc)
      as (t & s' & Hl & Hal & Hw' & Hc' & _).
    exists t, s'. cbn [face_phase]. split; [exact Hl|].
    pose proof Hal as (H1 & H2 & H3 & H4 & H5 & H6 & H7 & H8).
    rewrite H8. repeat apply conj; try assumption; try reflexivity.
    + intros _. split; [exact Hal | exact Hl].
    + discriminate.
Qed.

(** One iteration, phase by phase. *)
Lemma tick_chain f s :
  window_ok s -> calibration_ok s ->
  exists g s1 t s2,
    sensor_phase float f s = (g, s1)
    /\ window_ok s1 /\ calibration_ok s1
    /\ face_phase np_mean (rects f) s1 = Ok (t, s2)
    /\ tick_trigger float np_mean f s = Ok t
    /\ tick_alerted float np_mean f s = Ok (alert_logic t (now f) g s2)
    /\ tick float np_mean (Some f) s
       = Ok (keyboard (pressed f) (speech f) g (alert_logic t (now f) g s2)).
Proof.
  intros Hw Hc. pose proof (sensor_phase_spec f s) as Hs.
  unfold tick_trigger, tick_alerted, tick.
  destruct (sensor_phase float f s) as [g s1].
  destruct Hs as (Hd & _).
  destruct (same_debounce_ok _ _ Hd) as [Hc1 Hw1].
  destruct (face_phase_spec (rects f) s1 (Hw1 Hw) (Hc1 Hc))
    as (t & s2 & Hf & _).
  exists g, s1, t, s2. rewrite Hf. cbn [bind]. auto 10.
Qed.

(** An iteration never raises, and keeps the globals consistent. *)
Lemma tick_ok input s :
  window_ok s -> calibration_ok s ->
  exists ctl s',
    tick float np_mean input s = Ok (ctl, s') /\ window_ok s' /\ calibration_ok s'.
Proof.
  intros Hw Hc. destruct input as [f|]; [|exists Continue, s; auto].
  destruct (tick_chain f s Hw Hc) as (g & s1 & t & s2 & _ & Hw1 & Hc1 & Hf & _ & _ & Ht).
  destruct (face_phase_spec (rects f) s1 Hw1 Hc1)
    as (t' & s2' & Hf' & Hw2 & Hc2 & _).
  rewrite Hf in Hf'. injection Hf' as <- <-.
  pose proof (alert_logic_debounce t (now f) g s2) as (Hd3 & _).
  pose proof (keyboard_spec (pressed f) (speech f) g
                (alert_logic t (now f) g s2)) as Hk.
  destruct (keyboard _ _ _ _) as [ctl s4]. destruct Hk as (Hd4 & _).
  exists ctl, s4. split; [exact Ht|].
  destruct (same_debounce_ok _ _ (same_debounce_trans _ _ _ Hd3 Hd4)).
  auto.
Qed.

Lemma main_loop_ok inputs : forall s,
  window_ok s -> calibration_ok s ->
  exists s',
    main_loop float np_mean inputs s = Ok s' /\ window_ok s' /\ calibration_ok s'.
Proof.
  induction inputs as [|i rest IH]; intros s Hw Hc; cbn [main_loop].
  - exists s. auto.
  - destruct (tick_ok i s Hw Hc) as (ctl & s1 & -> & Hw1 & Hc1). cbn [bind].
    destruct ctl; [apply IH; assumption | exists s1; auto].
Qed.

Lemma initial_ok : window_ok initial /\ calibration_ok initial.
Proof.
  split; [unfold window_ok; cbn; lia|].
  unfold calibration_ok. cbn. unfold CALIB_FRAMES. lia.
Qed.

End Phases.

(** ** Calibration, yawn and drowsiness debouncing *)

Section Debounce.

Variable float : string -> option Q.
Variable np_mean : list float64 -> float64.

(** During calibration a frame of open-eyed faces never triggers, whatever
    the mouth ratios. *)
Lemma face_loop_calibrating fs : forall s,
  window_ok s -> calibration_ok s ->
  (calib_count s + length fs <= CALIB_FRAMES)%nat ->
  forallb (fun x => negb (low_ear x)) fs = true ->
  exists s', face_loop np_mean fs false s = Ok (false, s').
Proof.
  induction fs as [|f rest IH]; intros s Hw Hc Hn Hopen; cbn [face_loop].
  - exists s. reflexivity.
  - cbn [forallb length] in *. apply andb_prop in Hopen as [Hf Hrest].
    apply negb_true_iff, Qlt_bool_false_iff in Hf.
    destruct (face_step_spec np_mean f false s Hw Hc)
      as (yawn & drowsy & s1 & Hs & _ & Hw1 & Hc1 & _ & Hcc & Hy & _ & _ & Hhigh).
    rewrite Hs. cbn [bind].
    rewrite (Hy ltac:(lia)), (proj2 (Hhigh Hf)). cbn [orb].
    apply IH; try assumption. rewrite Hcc.
    destruct (Nat.ltb_spec (calib_count s) CALIB_FRAMES); lia.
Qed.

(** C6.  While fewer than 30 samples have been taken, a face sample never
    sets the yawn trigger, whatever the mouth ratio, and counts as one more
    calibration sample; once 30 samples are taken, the yawn trigger is set
    exactly when the smoothed ratio, [np.mean] of the last up to 10 raw
    readings, exceeds the baseline times 1.7, product and comparison being
    those of binary64; with baseline 0.2 a smoothed ratio of 0.35 triggers
    and 0.33 does not, and neither does 0.34, the double that [0.2 * 1.7]
    rounds to. *)
Theorem yawn_after_calibration (mar : float64) (s : state) :
  window_ok s -> calibration_ok s ->
  exists yawn s',
    mouth_update np_mean mar s = Ok (yawn, s')
    /\ lip_hist s' = last_n MAR_SMOOTH_WIN (lip_hist s ++ [mar])
    /\ ((calib_count s < CALIB_FRAMES)%nat ->
          yawn = false /\ calib_count s' = S (calib_count s))
    /\ ((CALIB_FRAMES <= calib_count s)%nat ->
          exists b,
            calib_base s = Some b /\ calib_base s' = Some b
            /\ calib_count s' = calib_count s
            /\ (yawn = true
                <-> (b * MAR_MULTIPLIER <? np_mean (lip_hist s'))%float = true)
            /\ (b = 0.2%float -> np_mean (lip_hist s') = 0.35%float ->
                yawn = true)
            /\ (b = 0.2%float -> np_mean (lip_hist s') = 0.33%float ->
                yawn = false)
            /\ (b = 0.2%float -> np_mean (lip_hist s') = 0.34%float ->
                yawn = false))
    /\ (forall fs : list face,
          (calib_count s + length fs <= CALIB_FRAMES)%nat ->
          forallb (fun x => negb (low_ear x)) fs = true ->
          exists s2, face_loop np_mean fs false s = Ok (false, s2)).
Proof.
  intros Hw Hc.
  destruct (mouth_update_spec np_mean mar s Hw Hc)
    as (yawn & s' & Hm & _ & _ & Hh & Hcal & Hdone).
  exists yawn, s'. split; [exact Hm|]. split; [exact Hh|].
  split; [intros H; destruct (Hcal H) as (? & ? & _); auto|].
  split.
  - intros H. destruct (Hdone H) as (Hcc & Hb & b & Hsb & Hy).
    exists b. split; [exact Hsb|]. split; [congruence|]. split; [exact Hcc|].
    split; [rewrite Hy; tauto|].
    repeat apply conj; intros -> Hm2; rewrite Hy, Hm2; reflexivity.
  - intros fs. apply face_loop_calibrating; assumption.
Qed.

(** C10.  The face analysis runs once per detected face: a frame with N
    faces feeds N readings to the smoothing window and takes N calibration
    samples (up to the 30th), and with N closed-eye faces advances the
    drowsiness counter by N; so ten frames with two closed-eye faces each
    already set the drowsiness trigger, which takes twenty frames with one
    face. *)
Theorem faces_processed_per_face (fs : list face) (s : state) :
  fs <> [] -> window_ok s -> calibration_ok s ->
  exists t s',
    face_phase np_mean fs s = Ok (t, s')
    /\ lip_hist s' = last_n MAR_SMOOTH_WIN (lip_hist s ++ map face_mar fs)
    /\ calib_count s' =
         Nat.max (calib_count s)
                 (Nat.min CALIB_FRAMES (calib_count s + length fs))
    /\ (forallb low_ear fs = true ->
          COUNTER s' = (COUNTER s + length fs)%nat
          /\ ((EYE_AR_CONSEC_FRAMES <= COUNTER s + length fs)%nat -> t = true))
    /\ (exists s10,
          main_loop float np_mean
            (repeat (Some (quiet None [eyes_closed; eyes_closed] 0)) 10) initial
          = Ok s10
          /\ COUNTER s10 = 20%nat /\ calib_count s10 = 20%nat
          /\ alert_active s10 = true)
    /\ (exists s10,
          main_loop float np_mean
            (repeat (Some (quiet None [eyes_closed] 0)) 10) initial
          = Ok s10
          /\ COUNTER s10 = 10%nat /\ calib_count s10 = 10%nat
          /\ alert_active s10 = false).
Proof.
  intros Hne Hw Hc.
  destruct (face_loop_spec np_mean fs false s Hw Hc)
    as (t & s' & Hl & _ & _ & _ & Hh & Hcc & _ & Hcnt).
  exists t, s'. split.
  { destruct fs; [congruence | exact Hl]. }
  split; [exact Hh|]. split; [exact Hcc|]. split.
  { intros Hall. destruct (Hcnt Hall) as [Hk Ht]. split; [exact Hk|].
    intros Hge. apply Ht; assumption. }
  split; eexists; (split; [vm_compute; reflexivity|]);
    repeat apply conj; reflexivity.
Qed.

End Debounce.

Lemma yawn_after_calibration_witness :
  (exists s', mouth_update mean_seq 0.35
                (calibrated_at 0.2 (repeat 0.35%float 10%nat))
              = Ok (true, s'))
  /\ (exists s', mouth_update mean_seq 0.34
                   (calibrated_at 0.2 (repeat 0.34%float 10%nat))
                 = Ok (false, s')).
Proof.
  split.
  - destruct (yawn_after_calibration mean_seq 0.35
                (calibrated_at 0.2 (repeat 0.35%float 10%nat)))
      as (yawn & s' & Hm & Hh & _ & Hdone & _).
    + unfold window_ok. vm_compute. lia.
    + unfold calibration_ok. intros _. discriminate.
    + destruct (Hdone ltac:(vm_compute; lia)) as (b & Hb & _ & _ & Hy & _).
      injection Hb as <-. exists s'. rewrite Hm.
      rewrite (proj2 Hy); [reflexivity|].
      rewrite Hh. vm_compute. reflexivity.
  - destruct (yawn_after_calibration mean_seq 0.34
                (calibrated_at 0.2 (repeat 0.34%float 10%nat)))
      as (yawn & s' & Hm & Hh & _ & Hdone & _).
    + unfold window_ok. vm_compute. lia.
    + unfold calibration_ok. intros _. discriminate.
    + destruct (Hdone ltac:(vm_compute; lia)) as (b & Hb & _ & _ & Hy & _).
      injection Hb as <-. exists s'. rewrite Hm.
      destruct yawn; [|reflexivity].
      rewrite Hh in Hy. apply proj1 in Hy. specialize (Hy eq_refl).
      vm_compute in Hy. discriminate Hy.
Defined.

Lemma faces_processed_per_face_witness :
  exists t s', face_phase mean_seq [eyes_closed; eyes_closed; eyes_closed] initial
               = Ok (t, s')
               /\ COUNTER s' = 3%nat /\ calib_count s' = 3%nat.
Proof.
  destruct (faces_processed_per_face Gps.decimal_float mean_seq
              [eyes_closed; eyes_closed; eyes_closed] initial)
    as (t & s' & Hf & _ & Hcc & Hcnt & _).
  - discriminate.
  - apply initial_ok.
  - apply initial_ok.
  - exists t, s'. split; [exact Hf|]. split.
    + apply Hcnt. vm_compute. reflexivity.
    + exact Hcc.
Defined.

(** ** The drowsiness counter over frames *)

Section Frames.

Variable float : string -> option Q.
Variable np_mean : list float64 -> float64.

(** An iteration on a frame with exactly one face. *)
Lemma one_face_tick f x s :
  window_ok s -> calibration_ok s -> rects f = [x] ->
  exists yawn drowsy s2 ctl s',
    mouth_update np_mean (face_mar x) (snd (sensor_phase float f s)) = Ok (yawn, s2)
    /\ tick_trigger float np_mean f s = Ok (yawn || drowsy)
    /\ tick float np_mean (Some f) s = Ok (ctl, s')
    /\ (ctl = Break <-> pressed f = KeyQ)
    /\ window_ok s' /\ calibration_ok s'
    /\ ((calib_count s < CALIB_FRAMES)%nat -> yawn = false)
    /\ (face_ear x < EYE_AR_THRESH ->
          COUNTER s' = S (COUNTER s)
          /\ drowsy = (EYE_AR_CONSEC_FRAMES <=? S (COUNTER s))%nat)
    /\ (EYE_AR_THRESH <= face_ear x -> COUNTER s' = 0%nat /\ drowsy = false).
Proof.
  intros Hw Hc Hx.
  destruct (tick_chain float np_mean f s Hw Hc)
    as (g & s1 & t & s3 & Hs & Hw1 & Hc1 & Hf & Htrig & _ & Ht).
  pose proof (sensor_phase_spec float f s) as Hsp. rewrite Hs in Hsp.
  destruct Hsp as ((Hk1 & _ & _ & Hcc1) & _).
  rewrite Hs. cbn [snd].
  destruct (mouth_update_spec np_mean (face_mar x) s1 Hw1 Hc1)
    as (yawn & s2 & Hm & _ & Hk2 & _ & Hcal & _).
  pose proof (eye_update_spec (face_ear x) s2) as He.
  destruct (eye_update (face_ear x) s2) as [drowsy s3'] eqn:Ee.
  destruct He as (_ & _ & _ & _ & Hlow & Hhigh).
  assert (Hf' : face_phase np_mean (rects f) s1 = Ok (yawn || drowsy, s3')).
  { rewrite Hx. cbn [face_phase face_loop]. unfold face_step.
    rewrite Hm. cbn [bind]. rewrite Ee. cbn [bind orb]. reflexivity. }
  rewrite Hf in Hf'. injection Hf' as -> ->.
  destruct (tick_ok float np_mean (Some f) s Hw Hc) as (ctl & s' & Ht' & Hw' & Hc').
  exists yawn, drowsy, s2, ctl, s'.
  split; [exact Hm|]. split; [exact Htrig|]. split; [exact Ht'|].
  rewrite Ht in Ht'.
  pose proof (alert_logic_debounce (yawn || drowsy) (now f) g s3')
    as ((Hk3 & _) & _).
  pose proof (keyboard_spec (pressed f) (speech f) g
                (alert_logic (yawn || drowsy) (now f) g s3')) as Hkb.
  destruct (keyboard _ _ _ _) as [ctl' s4]. injection Ht' as -> ->.
  destruct Hkb as ((Hk4 & _) & _ & _ & _ & _ & _ & _ & _ & Hq).
  split; [exact Hq|]. split; [exact Hw'|]. split; [exact Hc'|].
  split; [intros H; apply Hcal; rewrite Hcc1; exact H|].
  rewrite Hk4, Hk3, <- Hk1, <- Hk2. split; [exact Hlow | exact Hhigh].
Qed.

Lemma closed_eye_frame_inv f :
  closed_eye_frame f = true ->
  exists x, rects f = [x] /\ face_ear x < EYE_AR_THRESH /\ pressed f <> KeyQ.
Proof.
  unfold closed_eye_frame. destruct (rects f) as [|x [|y r]]; try discriminate.
  intros H. apply andb_prop in H as [Hlt Hq]. exists x.
  split; [reflexivity|]. split; [apply Qlt_bool_iff, Hlt|].
  intros Hk. rewrite Hk in Hq. discriminate.
Qed.

Lemma open_eye_frame_inv f :
  open_eye_frame f = true ->
  exists x, rects f = [x] /\ EYE_AR_THRESH <= face_ear x.
Proof.
  unfold open_eye_frame. destruct (rects f) as [|x [|y r]]; try discriminate.
  intros H. exists x. split; [reflexivity|].
  apply Qlt_bool_false_iff, negb_true_iff, H.
Qed.

Lemma closed_eye_run frames : forall s,
  window_ok s -> calibration_ok s ->
  forallb closed_eye_frame frames = true ->
  exists sk,
    main_loop float np_mean (map Some frames) s = Ok sk
    /\ COUNTER sk = (COUNTER s + length frames)%nat
    /\ window_ok sk /\ calibration_ok sk.
Proof.
  induction frames as [|f rest IH]; intros s Hw Hc Hall;
    cbn [map main_loop length].
  - exists s. rewrite Nat.add_0_r. auto.
  - cbn [forallb] in Hall. apply andb_prop in Hall as [Hf Hrest].
    destruct (closed_eye_frame_inv f Hf) as (x & Hx & Hlt & Hq).
    destruct (one_face_tick f x s Hw Hc Hx)
      as (yawn & drowsy & s2 & ctl & s' & _ & _ & Ht & Hctl & Hw' & Hc' & _
          & Hlow & _).
    rewrite Ht. cbn [bind].
    destruct ctl; [|destruct Hq; apply Hctl; reflexivity].
    destruct (IH s' Hw' Hc' Hrest) as (sk & Hl & Hk & Hwk & Hck).
    exists sk. split; [exact Hl|]. destruct (Hlow Hlt) as [Hk' _].
    split; [lia | auto].
Qed.

(** C2.  After any run of single-face frames with eye aspect ratio below
    0.25, started with the counter at zero, the counter equals the number of
    frames; on the next such frame the drowsiness branch sets the trigger
    exactly when that frame is the 20th or later of the run (before, the
    trigger is whatever the yawn test says, which is nothing during
    calibration); and one single-face frame with ratio at least 0.25 puts
    the counter back to zero. *)
Theorem drowsiness_debounce (frames : list frame) (next : frame) (s : state) :
  window_ok s -> calibration_ok s -> COUNTER s = 0%nat ->
  forallb closed_eye_frame frames = true ->
  closed_eye_frame next = true ->
  exists sk yawn s2 s',
    main_loop float np_mean (map Some frames) s = Ok sk
    /\ COUNTER sk = length frames
    /\ (forall x, rects next = [x] ->
          mouth_update np_mean (face_mar x) (snd (sensor_phase float next sk))
          = Ok (yawn, s2))
    /\ ((calib_count sk < CALIB_FRAMES)%nat -> yawn = false)
    /\ tick_trigger float np_mean next sk
       = Ok (yawn || (EYE_AR_CONSEC_FRAMES <=? S (length frames))%nat)
    /\ tick float np_mean (Some next) sk = Ok (Continue, s')
    /\ COUNTER s' = S (length frames)
    /\ (forall f, open_eye_frame f = true ->
          exists ctl s0,
            tick float np_mean (Some f) s' = Ok (ctl, s0)
            /\ COUNTER s0 = 0%nat /\ window_ok s0 /\ calibration_ok s0).
Proof.
  intros Hw Hc H0 Hall Hnext.
  destruct (closed_eye_run frames s Hw Hc Hall) as (sk & Hl & Hk & Hwk & Hck).
  rewrite H0 in Hk. cbn [Nat.add] in Hk.
  destruct (closed_eye_frame_inv next Hnext) as (x & Hx & Hlt & Hq).
  destruct (one_face_tick next x sk Hwk Hck Hx)
    as (yawn & drowsy & s2 & ctl & s' & Hm & Htrig & Ht & Hctl & Hw' & Hc'
        & Hy & Hlow & _).
  destruct (Hlow Hlt) as [Hk' Hd].
  exists sk, yawn, s2, s'. split; [exact Hl|]. split; [exact Hk|].
  split.
  { intros y Hy'. rewrite Hx in Hy'. injection Hy' as <-. exact Hm. }
  split; [exact Hy|].
  split; [rewrite Htrig, Hd, Hk; reflexivity|].
  split.
  { rewrite Ht. destruct ctl; [reflexivity|].
    destruct Hq. apply Hctl. reflexivity. }
  split; [lia|].
  intros f Hf. destruct (open_eye_frame_inv f Hf) as (y & Hy' & Hge).
  destruct (one_face_tick f y s' Hw' Hc' Hy')
    as (? & ? & ? & ctl0 & s0 & _ & _ & Ht0 & _ & Hw0 & Hc0 & _ & _ & Hhigh).
  exists ctl0, s0. split; [exact Ht0|]. split; [apply Hhigh, Hge | auto].
Qed.

End Frames.

Lemma drowsiness_debounce_witness :
  exists sk,
    main_loop Gps.decimal_float mean_seq
      (map Some (repeat (quiet None [eyes_closed] 0) 19)) initial = Ok sk
    /\ COUNTER sk = 19%nat
    /\ tick_trigger Gps.decimal_float mean_seq (quiet None [eyes_closed] 0) sk = Ok true.
Proof.
  destruct (drowsiness_debounce Gps.decimal_float mean_seq
              (repeat (quiet None [eyes_closed] 0) 19)
              (quiet None [eyes_closed] 0) initial)
    as (sk & yawn & s2 & s' & Hl & Hk & _ & Hy & Htrig & _).
  - apply initial_ok.
  - apply initial_ok.
  - reflexivity.
  - vm_compute. reflexivity.
  - vm_compute. reflexivity.
  - exists sk. split; [exact Hl|]. split; [exact Hk|].
    rewrite Htrig. destruct yawn; reflexivity.
Defined.

(** ** Accident latch and notifications *)

Section Alerts.

Variable float : string -> option Q.
Variable np_mean : list float64 -> float64.

(** C3.  The accident latch is one-shot.  On the tilt readings 10, 50, 10,
    60 the run activates the buzzer and sends the accident e-mail once, at
    the reading 50, and nothing else.  While the latch is set, an iteration
    emits nothing from the tilt check, sends no accident e-mail whatever the
    tilt reading, and leaves the latch set unless the reset key is pressed
    in it; the reset key clears it. *)
Theorem accident_latch_one_shot (f : frame) (s : state) :
  window_ok s -> calibration_ok s -> accident_detected s = true ->
  exists ctl s',
    tick float np_mean (Some f) s = Ok (ctl, s')
    /\ out (snd (sensor_phase float f s)) = out s
    /\ count is_accident_email (out s') = count is_accident_email (out s)
    /\ (pressed f <> KeyR -> accident_detected s' = true)
    /\ (pressed f = KeyR -> accident_detected s' = false)
    /\ (accident_detected s' = false -> pressed f = KeyR)
    /\ (exists s1,
          main_loop float np_mean [Some (quiet (Some 10) [] 0)] initial = Ok s1
          /\ accident_detected s1 = false /\ out s1 = [])
    /\ (exists s2,
          main_loop float np_mean
            (map Some [quiet (Some 10) [] 0; quiet (Some 50) [] 1]) initial
          = Ok s2
          /\ accident_detected s2 = true /\ buzzer_active s2 = true
          /\ out s2 = [BuzzerOn;
                       Email (Accident 50) {| lat := None; lon := None |}])
    /\ (exists s4,
          main_loop float np_mean
            (map Some [quiet (Some 10) [] 0; quiet (Some 50) [] 1;
                       quiet (Some 10) [] 2; quiet (Some 60) [] 3]) initial
          = Ok s4
          /\ accident_detected s4 = true /\ buzzer_active s4 = true
          /\ out s4 = [BuzzerOn;
                       Email (Accident 50) {| lat := None; lon := None |}]).
Proof.
  intros Hw Hc Hacc.
  destruct (tick_chain float np_mean f s Hw Hc)
    as (g & s1 & t & s2 & Hs & Hw1 & Hc1 & Hf & _ & _ & Ht).
  pose proof (sensor_phase_spec float f s) as Hsp. rewrite Hs in Hsp.
  cbv zeta in Hsp. rewrite Hacc in Hsp. cbn [negb orb] in Hsp.
  rewrite andb_false_r, app_nil_r in Hsp.
  destruct Hsp as (_ & _ & _ & _ & _ & Hacc1 & _ & Hout1).
  destruct (face_phase_spec np_mean (rects f) s1 Hw1 Hc1)
    as (t' & s2' & Hf' & _ & _ & Hacc2 & _ & _ & _ & _ & Hcnt2 & _).
  rewrite Hf in Hf'. injection Hf' as <- <-.
  pose proof (alert_logic_debounce t (now f) g s2) as (_ & Hacc3 & _ & _ & Hcnt3).
  pose proof (keyboard_spec (pressed f) (speech f) g
                (alert_logic t (now f) g s2)) as Hk.
  destruct (keyboard _ _ _ _) as [ctl s']. 
  destruct Hk as (_ & _ & _ & _ & _ & Hcnt4 & Hkeep & Hreset & _).
  exists ctl, s'. split; [exact Ht|].
  rewrite Hs. cbn [snd]. split; [exact Hout1|].
  split; [rewrite Hcnt4, Hcnt3, Hcnt2, Hout1; reflexivity|].
  assert (Hstay : pressed f <> KeyR -> accident_detected s' = true).
  { intros Hne. rewrite (Hkeep Hne), Hacc3, Hacc2, Hacc1. reflexivity. }
  split; [exact Hstay|].
  split; [intros Hr; apply Hreset, Hr|].
  split.
  { intros Hoff. destruct (pressed f) eqn:Ek; try reflexivity;
      rewrite Hstay in Hoff by discriminate; discriminate. }
  repeat apply conj; eexists; (split; [vm_compute; reflexivity|]);
    repeat apply conj; reflexivity.
Qed.

Lemma count_le_app p l l' : (count p l <= count p (l ++ l'))%nat.
Proof. rewrite count_app. lia. Qed.

(** An iteration whose alert logic runs with the trigger set. *)
Lemma triggered_tick f s :
  window_ok s -> calibration_ok s -> tick_trigger float np_mean f s = Ok true ->
  exists ctl s',
    tick float np_mean (Some f) s = Ok (ctl, s')
    /\ window_ok s' /\ calibration_ok s'
    /\ alert_active s' = true
    /\ (alert_active s = false ->
          drowsiness_email_sent s' = false
          /\ count is_drowsiness_email (out s')
             = count is_drowsiness_email (out s))
    /\ (alert_active s = true ->
          (drowsiness_email_sent s = true ->
             drowsiness_email_sent s' = true
             /\ count is_drowsiness_email (out s')
                = count is_drowsiness_email (out s))
          /\ (drowsiness_email_sent s = false ->
                (drowsiness_email_sent s' = false
                 /\ count is_drowsiness_email (out s')
                    = count is_drowsiness_email (out s))
                \/ (drowsiness_email_sent s' = true
                    /\ count is_drowsiness_email (out s')
                       = S (count is_drowsiness_email (out s))))).
Proof.
  intros Hw Hc Htrig.
  destruct (tick_chain float np_mean f s Hw Hc)
    as (g & s1 & t & s2 & Hs & Hw1 & Hc1 & Hf & Htrig' & _ & Ht).
  rewrite Htrig in Htrig'. injection Htrig' as <-.
  destruct (tick_ok float np_mean (Some f) s Hw Hc) as (ctl & s' & Ht' & Hw' & Hc').
  exists ctl, s'. split; [exact Ht'|]. split; [exact Hw'|]. split; [exact Hc'|].
  rewrite Ht in Ht'.
  pose proof (sensor_phase_spec float f s) as Hsp. rewrite Hs in Hsp.
  cbv zeta in Hsp.
  destruct Hsp as (_ & Ha1 & _ & Hd1 & _ & _ & _ & Hout1).
  assert (Hn1 : count is_drowsiness_email (out s1)
                = count is_drowsiness_email (out s)).
  { rewrite Hout1. destruct (_ && _); count_norm; lia. }
  destruct (face_phase_spec np_mean (rects f) s1 Hw1 Hc1)
    as (t' & s2' & Hf' & _ & _ & _ & _ & _ & Hd2 & Hn2 & _ & Hfaces & Hnone).
  rewrite Hf in Hf'. injection Hf' as <- <-.
  assert (Ha2 : alert_active s2 = alert_active s1).
  { destruct (rects f) as [|x r] eqn:Er.
    - destruct (Hnone eq_refl) as (Hfalse & _). discriminate.
    - destruct (Hfaces ltac:(discriminate)) as ((Ha & _) & _). exact Ha. }
  pose proof (alert_logic_triggered (now f) g s2) as (Ha3 & Hstart & Hgo).
  pose proof (keyboard_spec (pressed f) (speech f) g
                (alert_logic true (now f) g s2)) as Hk.
  destruct (keyboard _ _ _ _) as [ctl' s4]. injection Ht' as -> ->.
  destruct Hk as (_ & Ha4 & _ & Hd4 & Hn4 & _).
  rewrite Ha4, Hd4, Hn4, <- Hn1, <- Hn2, <- Hd1, <- Hd2, <- Ha1, <- Ha2.
  split; [exact Ha3|]. split.
  - intros H. destruct (Hstart H) as (_ & Hd & _ & Ho).
    split; [exact Hd|]. rewrite Ho. count_norm. lia.
  - intros H. destruct (Hgo H) as (_ & Hsent & Hnot). split; assumption.
Qed.

(** Notifications still allowed in the current episode. *)
Lemma sustained_emails inputs : forall s,
  window_ok s -> calibration_ok s -> sustained float np_mean inputs s = true ->
  exists s',
    main_loop float np_mean inputs s = Ok s'
    /\ (count is_drowsiness_email (out s) <= count is_drowsiness_email (out s'))%nat
    /\ (count is_drowsiness_email (out s')
        <= count is_drowsiness_email (out s)
           + (if alert_active s && drowsiness_email_sent s then 0 else 1))%nat.
Proof.
  induction inputs as [|i rest IH]; intros s Hw Hc Hsus;
    cbn [main_loop sustained] in *.
  - exists s. split; [reflexivity|]. lia.
  - destruct i as [f|]; [|cbn [tick bind]; apply IH; assumption].
    destruct (tick_trigger float np_mean f s) as [[|]|] eqn:Etrig; try discriminate.
    destruct (triggered_tick f s Hw Hc Etrig)
      as (ctl & s1 & Ht & Hw1 & Hc1 & Ha1 & Hstart & Hgo).
    rewrite Ht in *. cbn [bind].
    assert (Hstep :
      (count is_drowsiness_email (out s) <= count is_drowsiness_email (out s1))%nat
      /\ (count is_drowsiness_email (out s1)
            + (if alert_active s1 && drowsiness_email_sent s1 then 0 else 1)
          <= count is_drowsiness_email (out s)
             + (if alert_active s && drowsiness_email_sent s then 0 else 1))%nat).
    { rewrite Ha1. cbn [andb]. destruct (alert_active s) eqn:Ea.
      - destruct (Hgo eq_refl) as [Hsent Hnot]. cbn [andb].
        destruct (drowsiness_email_sent s) eqn:Ed.
        + destruct (Hsent eq_refl) as [-> ->]. lia.
        + destruct (Hnot eq_refl) as [[-> ->] | [-> ->]]; lia.
      - destruct (Hstart eq_refl) as [-> ->]. cbn [andb]. lia. }
    destruct ctl.
    + destruct (IH s1 Hw1 Hc1 Hsus) as (s' & Hl & Hlo & Hhi).
      exists s'. split; [exact Hl|]. lia.
    + exists s1. split; [reflexivity|].
      destruct (alert_active s1 && drowsiness_email_sent s1); lia.
Qed.

(** C4.  Over any stretch of iterations that all run the alert logic with
    the trigger set, at most one drowsiness e-mail is sent, and none once
    the alert is active with its e-mail sent.  The e-mail becomes eligible
    again only in an iteration that starts an alert: the trigger is set and
    the alert was not active; and an active alert is only cleared in an
    iteration whose trigger is not set. *)
Theorem drowsiness_email_once (inputs : list (option frame)) (s : state) :
  window_ok s -> calibration_ok s -> sustained float np_mean inputs s = true ->
  exists s',
    main_loop float np_mean inputs s = Ok s'
    /\ (count is_drowsiness_email (out s')
        <= S (count is_drowsiness_email (out s)))%nat
    /\ (alert_active s = true -> drowsiness_email_sent s = true ->
          count is_drowsiness_email (out s')
          = count is_drowsiness_email (out s))
    /\ (forall f s0 ctl s1,
          window_ok s0 -> calibration_ok s0 ->
          tick float np_mean (Some f) s0 = Ok (ctl, s1) ->
          (drowsiness_email_sent s0 = true ->
           drowsiness_email_sent s1 = false ->
           alert_active s0 = false /\ tick_trigger float np_mean f s0 = Ok true)
          /\ (alert_active s0 = true -> alert_active s1 = false ->
              tick_trigger float np_mean f s0 = Ok false)).
Proof.
  intros Hw Hc Hsus.
  destruct (sustained_emails inputs s Hw Hc Hsus) as (s' & Hl & Hlo & Hhi).
  exists s'. split; [exact Hl|]. split.
  { destruct (alert_active s && drowsiness_email_sent s); lia. }
  split.
  { intros Ha Hd. rewrite Ha, Hd in Hhi. cbn [andb] in Hhi. lia. }
  clear. intros f s0 ctl s1 Hw Hc Ht.
  destruct (tick_chain float np_mean f s0 Hw Hc)
    as (g & sa & t & sb & Hs & Hwa & Hca & Hf & Htrig & _ & Ht').
  rewrite Ht in Ht'. injection Ht' as Hk.
  pose proof (sensor_phase_spec float f s0) as Hsp. rewrite Hs in Hsp.
  cbv zeta in Hsp. destruct Hsp as (_ & Ha1 & _ & Hd1 & _).
  destruct (face_phase_spec np_mean (rects f) sa Hwa Hca)
    as (t' & sb' & Hf' & _ & _ & _ & _ & _ & Hd2 & _ & _ & Hfaces & Hnone).
  rewrite Hf in Hf'. injection Hf' as <- <-.
  pose proof (keyboard_spec (pressed f) (speech f) g
                (alert_logic t (now f) g sb)) as Hkb.
  rewrite <- Hk in Hkb. destruct Hkb as (_ & Ha4 & _ & Hd4 & _).
  rewrite Htrig, Ha4, Hd4. destruct t.
  - assert (Ha2 : alert_active sb = alert_active sa).
    { destruct (rects f) as [|x r] eqn:Er.
      - destruct (Hnone eq_refl) as (Hfalse & _). discriminate.
      - destruct (Hfaces ltac:(discriminate)) as ((Ha & _) & _). exact Ha. }
    pose proof (alert_logic_triggered (now f) g sb) as (Ha3 & Hstart & Hgo).
    split.
    + intros Hd Hd'. split; [|reflexivity].
      destruct (alert_active s0) eqn:Ea; [|reflexivity].
      destruct (Hgo ltac:(congruence)) as (_ & Hsent & _).
      destruct (Hsent ltac:(congruence)) as [Hd3 _]. congruence.
    + intros _ Hoff. congruence.
  - pose proof (alert_logic_clear (now f) g sb) as (Hd3 & _).
    split; [|reflexivity]. intros Hd Hd'. congruence.
Qed.

End Alerts.

Lemma accident_latch_one_shot_witness :
  exists ctl s',
    tick Gps.decimal_float mean_seq (Some (quiet (Some 60) [] 3))
      (set_accident_detected true (activate_external_buzzer initial))
    = Ok (ctl, s')
    /\ accident_detected s' = true
    /\ count is_accident_email (out s') = 0%nat.
Proof.
  destruct (accident_latch_one_shot Gps.decimal_float mean_seq (quiet (Some 60) [] 3)
              (set_accident_detected true (activate_external_buzzer initial)))
    as (ctl & s' & Ht & _ & Hn & Hkeep & _).
  - unfold window_ok. cbn. lia.
  - unfold calibration_ok. cbn. unfold CALIB_FRAMES. lia.
  - reflexivity.
  - exists ctl, s'. split; [exact Ht|].
    split; [apply Hkeep; discriminate | exact Hn].
Defined.

Lemma drowsiness_email_once_witness :
  exists s',
    main_loop Gps.decimal_float mean_seq
      (map Some [quiet None [eyes_closed] 100; quiet None [eyes_closed] 107;
                 quiet None [eyes_closed] 108; quiet None [eyes_closed] 109])
      (set_COUNTER 19 initial)
    = Ok s'
    /\ (count is_drowsiness_email (out s') <= 1)%nat.
Proof.
  destruct (drowsiness_email_once Gps.decimal_float mean_seq
              (map Some [quiet None [eyes_closed] 100;
                         quiet None [eyes_closed] 107;
                         quiet None [eyes_closed] 108;
                         quiet None [eyes_closed] 109])
              (set_COUNTER 19 initial))
    as (s' & Hl & Hle & _).
  - unfold window_ok. cbn. lia.
  - unfold calibration_ok. cbn. unfold CALIB_FRAMES. lia.
  - vm_compute. reflexivity.
  - exists s'. split; [exact Hl | exact Hle].
Defined.

(** ** De-escalation and the shared buzzer *)

Section Deescalation.

Variable float : string -> option Q.
Variable np_mean : list float64 -> float64.

(** The face analysis either leaves the alert globals alone or, on a frame
    without a face and with neither the accident latch nor a pending
    sobriety test, clears them. *)
Lemma face_phase_alerts fs s t s' :
  window_ok s -> calibration_ok s ->
  face_phase np_mean fs s = Ok (t, s') ->
  same_alerts s s'
  \/ (fs = [] /\ accident_detected s = false
      /\ alert_active s' = false /\ beep_start_time s' = None
      /\ buzzer_active s' = false
      /\ accident_detected s' = false
      /\ out s' = out s
                  ++ (if alert_active s then [StopBeep] else [])
                  ++ (if buzzer_active s then [BuzzerOff] else [])).
Proof.
  intros Hw Hc Hf.
  destruct (face_phase_spec np_mean fs s Hw Hc)
    as (t' & s2 & Hf' & _ & _ & Hacc & _ & _ & _ & _ & _ & Hfaces & Hnone).
  rewrite Hf in Hf'. injection Hf' as <- <-.
  destruct fs as [|x r].
  - destruct (Hnone eq_refl) as (_ & _ & _ & _ & _ & Hkeep & Hclear).
    destruct (accident_detected s) eqn:Ea; [left; apply Hkeep; auto|].
    destruct (alcohol_test_active s) eqn:Et; [left; apply Hkeep; auto|].
    right. destruct (Hclear eq_refl eq_refl) as (? & ? & ? & ?).
    repeat apply conj; auto.
  - left. apply Hfaces. discriminate.
Qed.

(** C5, as the code has it.  On an iteration whose trigger is not set and
    with the accident latch not set, the alert is cleared right after the
    alert logic: the tone is stopped if it was playing, [alert_active] and
    the start time are cleared and the buzzer is off.  With the accident
    latch set, the alert, its start time and the tone are left as they
    were, and the buzzer stays on.  The keyboard handling changes neither
    the alert nor its start time, and the next triggered iteration after a
    clear starts a new episode: tone, new start time, e-mail eligible. *)
Theorem deescalation_unless_latched (f : frame) (s : state) :
  window_ok s -> calibration_ok s -> tick_trigger float np_mean f s = Ok false ->
  exists s2 ctl s',
    tick_alerted float np_mean f s = Ok s2
    /\ tick float np_mean (Some f) s = Ok (ctl, s')
    /\ alert_active s' = alert_active s2
    /\ beep_start_time s' = beep_start_time s2
    /\ (accident_detected s2 = false ->
          alert_active s2 = false
          /\ beep_start_time s2 = None
          /\ buzzer_active s2 = false
          /\ count is_stop_beep (out s2)
             = (count is_stop_beep (out s)
                + (if alert_active s then 1 else 0))%nat)
    /\ (accident_detected s2 = true ->
          alert_active s2 = alert_active s
          /\ beep_start_time s2 = beep_start_time s
          /\ (buzzer_active s = true -> buzzer_active s2 = true)
          /\ count is_stop_beep (out s2) = count is_stop_beep (out s))
    /\ (forall f',
          alert_active s' = false -> window_ok s' -> calibration_ok s' ->
          tick_trigger float np_mean f' s' = Ok true ->
          exists s3 pre,
            tick_alerted float np_mean f' s' = Ok s3
            /\ alert_active s3 = true
            /\ beep_start_time s3 = Some (now f')
            /\ drowsiness_email_sent s3 = false
            /\ out s3 = pre ++ [PlayBeep]).
Proof.
  intros Hw Hc Htrig.
  destruct (tick_chain float np_mean f s Hw Hc)
    as (g & s1 & t & sb & Hs & Hw1 & Hc1 & Hf & Htrig' & Hal & Ht).
  rewrite Htrig in Htrig'. injection Htrig' as <-.
  pose proof (sensor_phase_spec float f s) as Hsp. rewrite Hs in Hsp.
  cbv zeta in Hsp.
  destruct Hsp as (_ & Ha1 & Hb1 & _ & _ & Hacc1 & Hbz1 & Hout1).
  pose proof (face_phase_alerts _ _ _ _ Hw1 Hc1 Hf) as Hfa.
  pose proof (alert_logic_clear (now f) g sb) as (_ & _ & Hclear & Hkeep).
  pose proof (alert_logic_debounce false (now f) g sb) as (_ & Hacc3 & _).
  pose proof (keyboard_spec (pressed f) (speech f) g
                (alert_logic false (now f) g sb)) as Hk.
  destruct (keyboard _ _ _ _) as [ctl s'] eqn:Ek.
  destruct Hk as (_ & Ha4 & Hb4 & _).
  exists (alert_logic false (now f) g sb), ctl, s'.
  split; [exact Hal|]. split; [exact Ht|].
  split; [exact Ha4|]. split; [exact Hb4|].
  rewrite Hacc3. split; [|split].
  - intros Hoff.
    destruct (Hclear Hoff) as (Hx1 & Hx2 & Hx3 & Hx4).
    split; [exact Hx1|]. split; [exact Hx2|]. split; [exact Hx3|].
    rewrite Hx4.
    assert (Hs1 : accident_detected s1 = false).
    { destruct (face_phase_spec np_mean (rects f) s1 Hw1 Hc1)
        as (t' & sb' & Hf' & _ & _ & Hacc & _).
      rewrite Hf in Hf'. injection Hf' as _ <-. congruence. }
    rewrite Hacc1 in Hs1. apply orb_false_elim in Hs1 as [Hs0 Htl].
    rewrite Htl in Hout1. cbn [andb] in Hout1. rewrite app_nil_r in Hout1.
    destruct Hfa as [(Ha & _ & Hbz & _ & _ & _ & _ & Ho)
                    | (_ & _ & Ha & _ & Hbz & _ & Ho)].
    + rewrite Ha, Ha1, Hbz, Ho, Hout1.
      destruct (alert_active s), (buzzer_active s1); count_norm; lia.
    + rewrite Ha, Hbz, Ho, Ha1, Hout1.
      destruct (alert_active s), (buzzer_active s1); count_norm; lia.
  - intros Hon. rewrite (Hkeep Hon).
    destruct Hfa as [(Ha & Hb & Hbz & _ & _ & _ & _ & Ho)
                    | (_ & _ & _ & _ & _ & Hacc & _)]; [|congruence].
    rewrite Ha, Hb, Hbz, Ho, Ha1, Hb1, Hbz1, Hout1.
    split; [reflexivity|]. split; [reflexivity|].
    split; [intros ->; reflexivity|].
    destruct (_ && _); count_norm; lia.
  - intros f' Hidle Hw' Hc' Htrig2.
    destruct (tick_chain float np_mean f' s' Hw' Hc')
      as (g' & sa & t' & sc & Hs' & Hwa & Hca & Hf2 & Htrig2' & Hal2 & _).
    rewrite Htrig2 in Htrig2'. injection Htrig2' as <-.
    pose proof (sensor_phase_spec float f' s') as Hsp'. rewrite Hs' in Hsp'.
    cbv zeta in Hsp'. destruct Hsp' as (_ & Ha1' & _).
    destruct (face_phase_alerts _ _ _ _ Hwa Hca Hf2)
      as [(Ha' & _) | (_ & _ & Ha' & _)].
    + pose proof (alert_logic_triggered (now f') g' sc) as (Hx & Hstart & _).
      destruct (Hstart ltac:(congruence)) as (Hy1 & Hy2 & _ & Hy4).
      exists (alert_logic true (now f') g' sc), (out sc). auto.
    + pose proof (alert_logic_triggered (now f') g' sc) as (Hx & Hstart & _).
      destruct (Hstart Ha') as (Hy1 & Hy2 & _ & Hy4).
      exists (alert_logic true (now f') g' sc), (out sc). auto.
Qed.

End Deescalation.

(** C5 as stated fails: with the accident latch set, an iteration whose
    trigger is not set leaves the alert active, its start time in place and
    the tone playing.  Twenty closed-eye frames start the alert; the next
    frame has open eyes and a tilt of 50 degrees. *)
Lemma deescalation_blocked_by_latch :
  exists s s',
    main_loop Gps.decimal_float mean_seq
      (map Some (repeat (quiet None [eyes_closed] 100) 20)) initial = Ok s
    /\ alert_active s = true
    /\ tick_trigger Gps.decimal_float mean_seq (quiet (Some 50) [eyes_open] 101) s
       = Ok false
    /\ tick Gps.decimal_float mean_seq (Some (quiet (Some 50) [eyes_open] 101)) s
       = Ok (Continue, s')
    /\ alert_active s' = true
    /\ beep_start_time s' = Some 100
    /\ count is_stop_beep (out s') = 0%nat.
Proof.
  eexists. eexists.
  split; [vm_compute; reflexivity|].
  split; [reflexivity|].
  split; [vm_compute; reflexivity|].
  split; [vm_compute; reflexivity|].
  split; [reflexivity|]. split; reflexivity.
Qed.

Lemma deescalation_unless_latched_witness :
  exists s2,
    tick_alerted Gps.decimal_float mean_seq (quiet None [eyes_open] 101)
      (set_alert_active true (set_beep_start_time (Some 100) initial))
    = Ok s2
    /\ alert_active s2 = false /\ beep_start_time s2 = None.
Proof.
  destruct (deescalation_unless_latched Gps.decimal_float mean_seq
              (quiet None [eyes_open] 101)
              (set_alert_active true (set_beep_start_time (Some 100) initial)))
    as (s2 & ctl & s' & Hal & _ & _ & _ & Hoff & _).
  - unfold window_ok. cbn. lia.
  - unfold calibration_ok. cbn. unfold CALIB_FRAMES. lia.
  - vm_compute. reflexivity.
  - exists s2. split; [exact Hal|].
    assert (Hacc : accident_detected s2 = false).
    { vm_compute in Hal. injection Hal as <-. reflexivity. }
    destruct (Hoff Hacc) as (H1 & H2 & _). auto.
Defined.

(** C1 at its failing input.  After a failed sobriety test the buzzer is
    on and [alcohol_test_failed] is set; the next iteration, with an awake
    face (or with no face), no accident and no key pressed, switches the
    buzzer off although the failed test has not been reset. *)
Theorem failed_sobriety_buzzer_dropped :
  exists s1 s2 s2',
    main_loop Gps.decimal_float mean_seq [Some failed_sobriety_frame] initial = Ok s1
    /\ alcohol_test_failed s1 = true /\ buzzer_active s1 = true
    /\ out s1 = [BuzzerOn; Email AlcoholFailed {| lat := None; lon := None |}]
    /\ tick_alerted Gps.decimal_float mean_seq (quiet None [eyes_open] 101) s1 = Ok s2
    /\ alcohol_test_failed s2 = true /\ accident_detected s2 = false
    /\ buzzer_active s2 = false
    /\ out s2 = [BuzzerOn; Email AlcoholFailed {| lat := None; lon := None |};
                 BuzzerOff]
    /\ tick_alerted Gps.decimal_float mean_seq (quiet None [] 101) s1 = Ok s2'
    /\ alcohol_test_failed s2' = true /\ buzzer_active s2' = false.
Proof.
  eexists. eexists. eexists.
  split; [vm_compute; reflexivity|].
  split; [reflexivity|]. split; [reflexivity|]. split; [reflexivity|].
  split; [vm_compute; reflexivity|].
  split; [reflexivity|]. split; [reflexivity|]. split; [reflexivity|].
  split; [reflexivity|].
  split; [vm_compute; reflexivity|].
  split; reflexivity.
Qed.

(** * Further properties of the main loop *)

Section LoopInvariants.

Variable float : string -> option Q.
Variable np_mean : list float64 -> float64.

Lemma sensor_phase_buzzer f s :
  buzzer_ok s -> buzzer_ok (snd (sensor_phase float f s)).
Proof.
  pose proof (sensor_phase_spec float f s) as H.
  destruct (sensor_phase float f s) as [g s1]. cbv zeta in H. cbn [snd].
  destruct H as (_ & Ha & Hb & _ & Hf & Hacc & Hbz & _).
  unfold buzzer_ok. rewrite Ha, Hb, Hf, Hacc, Hbz.
  intros (H1 & H2 & H3). split; [|split; [|exact H3]].
  - destruct (accident_detected s), (buzzer_active s),
      (fst (check_tilt_angle (tilt f))); cbn in *; intros; auto.
  - destruct (accident_detected s), (buzzer_active s),
      (fst (check_tilt_angle (tilt f))); cbn in *; intros; auto.
Qed.

Lemma face_phase_buzzer fs s t s' :
  window_ok s -> calibration_ok s ->
  face_phase np_mean fs s = Ok (t, s') -> buzzer_ok s -> buzzer_ok s'.
Proof.
  intros Hw Hc Hf (H1 & H2 & H3).
  destruct (face_phase_spec np_mean fs s Hw Hc)
    as (t' & s2 & Hf' & _ & _ & _ & _ & Hfail & _).
  rewrite Hf in Hf'. injection Hf' as <- <-.
  destruct (face_phase_alerts np_mean fs s t s' Hw Hc Hf)
    as [(Ha & Hb & Hbz & _ & _ & Hacc & _)
       | (_ & _ & Ha & Hb & Hbz & Hacc & _)];
    unfold buzzer_ok.
  - rewrite Ha, Hb, Hbz, Hacc, Hfail. auto.
  - rewrite Ha, Hb, Hbz, Hacc. split; [discriminate|].
    split; [discriminate|]. split; [discriminate | congruence].
Qed.

(** After the alert logic the buzzer is on only for an accident or an
    active alert, whatever the globals were before. *)
Lemma alert_logic_buzzer t clock g s :
  let s' := alert_logic t clock g s in
  (buzzer_active s' = true ->
     accident_detected s' = true \/ alert_active s' = true)
  /\ ((accident_detected s = true -> buzzer_active s = true) ->
      (accident_detected s' = true -> buzzer_active s' = true))
  /\ ((alert_active s = true <-> beep_start_time s <> None) ->
      (alert_active s' = true <-> beep_start_time s' <> None)).
Proof.
  unfold alert_logic. flat_state s.
  destruct t, aa, ad, ba, des; cbn;
    try (destruct bst as [t0|]; cbn;
         [destruct (negb (Qeq_bool t0 0) && Qge_bool (clock - t0) BEEP_DURATION)|];
         cbn);
    repeat apply conj; intros; auto;
    try discriminate; try tauto; try (split; intros; congruence);
    try (match goal with H : _ -> _ |- _ => apply H; reflexivity end).
Qed.

Lemma keyboard_buzzer k heard g s :
  let s' := snd (keyboard k heard g s) in
  (buzzer_active s = true ->
     accident_detected s = true \/ alert_active s = true) ->
  (accident_detected s = true -> buzzer_active s = true) ->
  (accident_detected s' = true -> buzzer_active s' = true)
  /\ (buzzer_active s' = true ->
        accident_detected s' = true \/ alert_active s' = true
        \/ alcohol_test_failed s' = true).
Proof.
  unfold keyboard. flat_state s.
  destruct k; cbn -[Speech.verify_speech];
    try (destruct ata; cbn -[Speech.verify_speech];
         [destruct (Speech.verify_speech tt heard); cbn|]);
    intros H1 H2; split; intros; auto; try tauto; try discriminate.
Qed.

Lemma tick_buzzer input s ctl s' :
  window_ok s -> calibration_ok s ->
  tick float np_mean input s = Ok (ctl, s') -> buzzer_ok s -> buzzer_ok s'.
Proof.
  intros Hw Hc Ht Hok. destruct input as [f|];
    [|cbn in Ht; injection Ht as _ <-; exact Hok].
  destruct (tick_chain float np_mean f s Hw Hc)
    as (g & s1 & t & s2 & Hs & Hw1 & Hc1 & Hf & _ & _ & Ht').
  rewrite Ht in Ht'. injection Ht' as Hk.
  pose proof (sensor_phase_buzzer f s Hok) as Hok1. rewrite Hs in Hok1.
  cbn [snd] in Hok1.
  pose proof (face_phase_buzzer _ _ _ _ Hw1 Hc1 Hf Hok1) as (H1 & _ & H3).
  pose proof (alert_logic_buzzer t (now f) g s2) as (K1 & K2 & K3).
  pose proof (keyboard_buzzer (pressed f) (speech f) g
                (alert_logic t (now f) g s2) K1 (K2 H1)) as [L1 L2].
  pose proof (keyboard_spec (pressed f) (speech f) g
                (alert_logic t (now f) g s2)) as Hkb.
  rewrite <- Hk in L1, L2, Hkb. cbn [snd] in L1, L2.
  destruct Hkb as (_ & Ha & Hb & _).
  split; [exact L1|]. split; [exact L2|]. rewrite Ha, Hb. exact (K3 H3).
Qed.

Lemma main_loop_buzzer inputs : forall s,
  window_ok s -> calibration_ok s -> buzzer_ok s ->
  exists s', main_loop float np_mean inputs s = Ok s' /\ buzzer_ok s'.
Proof.
  induction inputs as [|i rest IH]; intros s Hw Hc Hok; cbn [main_loop].
  - exists s. auto.
  - destruct (tick_ok float np_mean i s Hw Hc) as (ctl & s1 & Ht & Hw1 & Hc1).
    pose proof (tick_buzzer _ _ _ _ Hw Hc Ht Hok) as Hok1.
    rewrite Ht. cbn [bind].
    destruct ctl; [apply IH; assumption | exists s1; auto].
Qed.

Lemma initial_buzzer_ok : buzzer_ok initial.
Proof.
  unfold buzzer_ok. cbn. repeat apply conj; try discriminate.
  intros H. destruct H. reflexivity.
Qed.

(** X1.  Whatever the camera, the sensors and the keyboard deliver, at the
    end of the loop the buzzer flag is on whenever the accident latch is
    set. *)
Theorem accident_latch_keeps_buzzer (inputs : list (option frame)) :
  exists s,
    main_loop float np_mean inputs initial = Ok s
    /\ (accident_detected s = true -> buzzer_active s = true).
Proof.
  destruct (main_loop_buzzer inputs initial) as (s & Hl & H1 & _);
    try apply initial_ok; try apply initial_buzzer_ok.
  exists s. auto.
Qed.

(** X2.  The buzzer flag is never on without a reason: at the end of the
    loop, if it is on then the accident latch is set, or the drowsiness
    alert is active, or a failed sobriety test has not been reset. *)
Theorem buzzer_only_for_a_concern (inputs : list (option frame)) :
  exists s,
    main_loop float np_mean inputs initial = Ok s
    /\ (buzzer_active s = true ->
          accident_detected s = true \/ alert_active s = true
          \/ alcohol_test_failed s = true).
Proof.
  destruct (main_loop_buzzer inputs initial) as (s & Hl & _ & H2 & _);
    try apply initial_ok; try apply initial_buzzer_ok.
  exists s. auto.
Qed.

(** X3.  The start time of the tone is set exactly while the drowsiness
    alert is active. *)
Theorem start_time_iff_alert_active (inputs : list (option frame)) :
  exists s,
    main_loop float np_mean inputs initial = Ok s
    /\ (alert_active s = true <-> beep_start_time s <> None).
Proof.
  destruct (main_loop_buzzer inputs initial) as (s & Hl & _ & _ & H3);
    try apply initial_ok; try apply initial_buzzer_ok.
  exists s. auto.
Qed.

End LoopInvariants.

(** ** Calibration invariants *)

Section FaceFields.

Variable np_mean : list float64 -> float64.

Lemma face_step_fields f t s t' s' :
  face_step np_mean f t s = Ok (t', s') ->
  test_text s' = test_text s /\ last_gps_coords s' = last_gps_coords s.
Proof.
  unfold face_step, mouth_update, eye_update. flat_state s.
  cbn [set_lip_hist set_calib_base set_calib_count set_COUNTER lip_hist
       calib_count calib_base COUNTER].
  destruct (cc <? CALIB_FRAMES)%nat; [|destruct base; [|discriminate]];
    cbn [bind]; destruct (Qlt_bool (face_ear f) EYE_AR_THRESH);
    intros [= <- <-]; split; reflexivity.
Qed.

(** What one face does to the calibration and to the window. *)
Lemma face_step_calibration f t s t' s' :
  window_ok s -> calibration_ok s ->
  face_step np_mean f t s = Ok (t', s') ->
  (calib_inv s -> calib_inv s')
  /\ ((CALIB_FRAMES <= calib_count s)%nat ->
        calib_count s' = calib_count s /\ calib_base s' = calib_base s).
Proof.
  intros Hw Hc Hs. unfold face_step in Hs.
  destruct (mouth_update_spec np_mean (face_mar f) s Hw Hc)
    as (yawn & s1 & Hm & _ & _ & Hh & Hcal & Hdone).
  rewrite Hm in Hs. cbn [bind] in Hs.
  pose proof (eye_update_spec (face_ear f) s1) as He.
  destruct (eye_update (face_ear f) s1) as [drowsy s2].
  injection Hs as _ <-. destruct He as (_ & Hh2 & Hb2 & Hc2 & _).
  split.
  - intros [Hle Hset]. unfold calib_inv. rewrite Hc2, Hb2.
    destruct (Nat.ltb_spec (calib_count s) CALIB_FRAMES) as [Hlt|Hge].
    + destruct (Hcal Hlt) as (_ & -> & ->). split; [lia | discriminate].
    + destruct (Hdone Hge) as (-> & -> & _). split; [lia|]. exact Hset.
  - intros Hge. destruct (Hdone Hge) as (Hx & Hy & _). split; congruence.
Qed.

End FaceFields.

(** Lifting a property of the calibration globals from one face to the
    whole loop. *)
Section Lift.

Variable float : string -> option Q.
Variable np_mean : list float64 -> float64.
Variable P : state -> Prop.
Variable face_ok : face -> Prop.

Hypothesis P_ext : forall s s',
  lip_hist s' = lip_hist s -> calib_base s' = calib_base s ->
  calib_count s' = calib_count s -> P s -> P s'.

Hypothesis P_step : forall f t s t' s',
  window_ok s -> calibration_ok s -> face_ok f ->
  face_step np_mean f t s = Ok (t', s') -> P s -> P s'.

Lemma lift_face_loop fs : forall t s t' s',
  window_ok s -> calibration_ok s -> Forall face_ok fs ->
  face_loop np_mean fs t s = Ok (t', s') -> P s -> P s'.
Proof.
  induction fs as [|f rest IH]; intros t s t' s' Hw Hc Hall Hl Hp;
    cbn [face_loop] in Hl.
  - injection Hl as _ <-. exact Hp.
  - inversion Hall as [|? ? Hf Hrest]; subst.
    destruct (face_step_spec np_mean f t s Hw Hc)
      as (yawn & drowsy & s1 & Hs & _ & Hw1 & Hc1 & _).
    rewrite Hs in Hl. cbn [bind] in Hl.
    apply (IH _ _ _ _ Hw1 Hc1 Hrest Hl).
    exact (P_step _ _ _ _ _ Hw Hc Hf Hs Hp).
Qed.

Lemma lift_tick input s ctl s' :
  window_ok s -> calibration_ok s -> input_ok face_ok input ->
  tick float np_mean input s = Ok (ctl, s') -> P s -> P s'.
Proof.
  intros Hw Hc Hin Ht Hp. destruct input as [f|];
    [|cbn in Ht; injection Ht as _ <-; exact Hp].
  destruct (tick_chain float np_mean f s Hw Hc)
    as (g & s1 & t & s2 & Hs & Hw1 & Hc1 & Hf & _ & _ & Ht').
  rewrite Ht in Ht'. injection Ht' as Hk.
  pose proof (sensor_phase_spec float f s) as Hsp. rewrite Hs in Hsp.
  cbv zeta in Hsp. destruct Hsp as ((_ & Hl1 & Hb1 & Hn1) & _).
  assert (Hp1 : P s1) by (apply (P_ext s); auto).
  assert (Hp2 : P s2).
  { destruct (rects f) as [|x r] eqn:Er.
    - destruct (face_phase_spec np_mean [] s1 Hw1 Hc1)
        as (t0 & s0 & Hf0 & _ & _ & _ & _ & _ & _ & _ & _ & _ & Hnone).
      rewrite Hf in Hf0. injection Hf0 as <- <-.
      destruct (Hnone eq_refl) as (_ & _ & Hl & Hb & Hn & _).
      apply (P_ext s1); auto.
    - cbn [face_phase] in Hf. cbn [input_ok] in Hin. rewrite Er in Hin.
      exact (lift_face_loop _ _ _ _ _ Hw1 Hc1 Hin Hf Hp1). }
  pose proof (alert_logic_debounce t (now f) g s2) as ((_ & Hl3 & Hb3 & Hn3) & _).
  pose proof (keyboard_spec (pressed f) (speech f) g
                (alert_logic t (now f) g s2)) as Hkb.
  rewrite <- Hk in Hkb. destruct Hkb as ((_ & Hl4 & Hb4 & Hn4) & _).
  apply (P_ext s2); congruence.
Qed.

Lemma lift_main_loop inputs : forall s,
  window_ok s -> calibration_ok s -> Forall (input_ok face_ok) inputs -> P s ->
  exists s', main_loop float np_mean inputs s = Ok s' /\ P s'
             /\ window_ok s' /\ calibration_ok s'.
Proof.
  induction inputs as [|i rest IH]; intros s Hw Hc Hall Hp; cbn [main_loop].
  - exists s. auto.
  - inversion Hall as [|? ? Hi Hrest]; subst.
    destruct (tick_ok float np_mean i s Hw Hc) as (ctl & s1 & Ht & Hw1 & Hc1).
    pose proof (lift_tick _ _ _ _ Hw Hc Hi Ht Hp) as Hp1.
    rewrite Ht. cbn [bind].
    destruct ctl; [apply IH; assumption | exists s1; auto].
Qed.

End Lift.

Section Calibration.

Variable float : string -> option Q.
Variable np_mean : list float64 -> float64.

Lemma Forall_trivial_inputs (inputs : list (option frame)) :
  Forall (input_ok (fun _ => True)) inputs.
Proof.
  apply Forall_forall. intros [f|] _; cbn; [|exact I].
  apply Forall_forall. intros; exact I.
Qed.

(** X4.  The loop never raises: the yawn comparison never meets an unset
    baseline.  At its end the smoothing window holds at most 10 readings,
    the calibration counter is at most 30 and a baseline exists as soon as
    one sample was taken; and after the cleanup the buzzer flag is off. *)
Theorem main_loop_never_raises (inputs : list (option frame)) :
  exists s s_end,
    main_loop float np_mean inputs initial = Ok s
    /\ (length (lip_hist s) <= MAR_SMOOTH_WIN)%nat
    /\ (calib_count s <= CALIB_FRAMES)%nat
    /\ ((0 < calib_count s)%nat -> calib_base s <> None)
    /\ run float np_mean inputs = Ok s_end
    /\ buzzer_active s_end = false.
Proof.
  destruct (lift_main_loop float np_mean calib_inv (fun _ => True)) with
    (inputs := inputs) (s := initial) as (s & Hl & [Hle Hset] & Hw & _).
  - unfold calib_inv. intros s s' _ -> ->. auto.
  - intros f t s t' s' Hw Hc _ Hs.
    apply (face_step_calibration np_mean f t s t' s' Hw Hc Hs).
  - apply initial_ok.
  - apply initial_ok.
  - apply Forall_trivial_inputs.
  - unfold calib_inv. cbn. unfold CALIB_FRAMES. split; lia.
  - exists s, (shutdown s). split; [exact Hl|]. split; [exact Hw|].
    split; [exact Hle|]. split; [exact Hset|].
    unfold run. rewrite Hl. cbn [bind]. split; [reflexivity|].
    unfold shutdown. flat_state s. destruct ba; reflexivity.
Qed.

(** X5.  No re-calibration: once 30 samples are taken, nothing the loop
    reads afterwards changes the baseline or the sample counter. *)
Theorem calibration_is_frozen (inputs : list (option frame)) (s : state)
    (base : float64) :
  window_ok s -> calib_count s = CALIB_FRAMES -> calib_base s = Some base ->
  exists s',
    main_loop float np_mean inputs s = Ok s'
    /\ calib_count s' = CALIB_FRAMES /\ calib_base s' = Some base.
Proof.
  intros Hw Hn Hb.
  destruct (lift_main_loop float np_mean
              (fun s => calib_count s = CALIB_FRAMES /\ calib_base s = Some base)
              (fun _ => True)) with (inputs := inputs) (s := s)
    as (s' & Hl & [Hn' Hb'] & _).
  - intros s0 s1 _ -> ->. auto.
  - intros f t s0 t' s1 Hw0 Hc0 _ Hs [Hn0 Hb0].
    destruct (face_step_calibration np_mean f t s0 t' s1 Hw0 Hc0 Hs) as (_ & Hfix).
    destruct (Hfix ltac:(lia)) as [-> ->]. auto.
  - exact Hw.
  - unfold calibration_ok. rewrite Hb. discriminate.
  - apply Forall_trivial_inputs.
  - auto.
  - exists s'. auto.
Qed.

End Calibration.

Lemma calibration_is_frozen_witness :
  exists s',
    main_loop Gps.decimal_float mean_seq
      [Some (quiet None [{| face_ear := 0.3; face_mar := 0.9%float |}] 1)]
      (calibrated_at 0.2 [0.2%float])
    = Ok s'
    /\ calib_count s' = CALIB_FRAMES /\ calib_base s' = Some 0.2%float.
Proof.
  apply (calibration_is_frozen Gps.decimal_float mean_seq).
  - unfold window_ok. cbn. unfold MAR_SMOOTH_WIN. lia.
  - reflexivity.
  - reflexivity.
Defined.

(** ** Sobriety test, accident latch and escalation inside the loop *)

Section Session.

Variable float : string -> option Q.
Variable np_mean : list float64 -> float64.

Lemma sensor_phase_sobriety f s :
  let s1 := snd (sensor_phase float f s) in
  alcohol_test_active s1
  = alcohol_test_active s || check_alcohol_level (alcohol f)
  /\ test_text s1 = (if alcohol_test_active s then test_text s
                     else if check_alcohol_level (alcohol f)
                          then generate_random_text (sample f)
                          else test_text s)
  /\ count is_alcohol_email (out s1) = count is_alcohol_email (out s).
Proof.
  unfold sensor_phase.
  destruct (Gps.parse_gps_data float (gps_serial f) (last_gps_coords s))
    as [g last].
  destruct (check_tilt_angle (tilt f)) as [is_tilted angle].
  flat_state s.
  destruct is_tilted, ad, ata;
    cbn -[check_alcohol_level generate_random_text];
    destruct (check_alcohol_level (alcohol f));
    cbn -[generate_random_text]; count_norm;
    repeat apply conj; try reflexivity; lia.
Qed.

Lemma face_loop_fields fs : forall t s t' s',
  face_loop np_mean fs t s = Ok (t', s') ->
  test_text s' = test_text s /\ last_gps_coords s' = last_gps_coords s.
Proof.
  induction fs as [|f rest IH]; intros t s t' s' Hl; cbn [face_loop] in Hl.
  - injection Hl as _ <-. auto.
  - destruct (face_step np_mean f t s) as [[t1 s1]|] eqn:Es; [|discriminate].
    cbn [bind] in Hl. destruct (face_step_fields np_mean _ _ _ _ _ Es) as [E1 E2].
    destruct (IH _ _ _ _ Hl) as [E3 E4]. split; congruence.
Qed.

Lemma face_phase_sobriety fs s t s' :
  window_ok s -> calibration_ok s ->
  face_phase np_mean fs s = Ok (t, s') ->
  alcohol_test_active s' = alcohol_test_active s
  /\ test_text s' = test_text s
  /\ alcohol_test_failed s' = alcohol_test_failed s
  /\ count is_alcohol_email (out s') = count is_alcohol_email (out s).
Proof.
  intros Hw Hc Hf.
  destruct (face_phase_spec np_mean fs s Hw Hc)
    as (t' & s2 & Hf' & _ & _ & _ & Hact & Hfail & _).
  rewrite Hf in Hf'. injection Hf' as <- <-.
  split; [exact Hact|]. split; [|split; [exact Hfail|]].
  - destruct fs as [|x r].
    + unfold face_phase in Hf. clear Hw Hc Hact Hfail. flat_state s.
      destruct ad, ata, aa, ba; cbn in Hf; injection Hf as _ <-;
        reflexivity.
    + cbn [face_phase] in Hf. apply (face_loop_fields _ _ _ _ _ Hf).
  - destruct (face_phase_alerts np_mean fs s t s' Hw Hc Hf)
      as [(_ & _ & _ & _ & _ & _ & _ & ->) | (_ & _ & _ & _ & _ & _ & ->)];
      [reflexivity|].
    destruct (alert_active s), (buzzer_active s); count_norm; lia.
Qed.

Lemma alert_logic_sobriety t clock g s :
  let s' := alert_logic t clock g s in
  test_text s' = test_text s
  /\ count is_alcohol_email (out s') = count is_alcohol_email (out s).
Proof.
  unfold alert_logic. flat_state s.
  destruct t, aa, ad, ba, des; cbn;
    try (destruct bst as [t0|]; cbn;
         [destruct (negb (Qeq_bool t0 0) && Qge_bool (clock - t0) BEEP_DURATION)|];
         cbn);
    count_norm; split; try reflexivity; lia.
Qed.

Lemma keyboard_sobriety k heard g s :
  let s' := snd (keyboard k heard g s) in
  let judged := is_key_s k && alcohol_test_active s in
  let failed := judged && negb (Speech.verify_speech (test_text s) heard) in
  test_text s' = test_text s
  /\ alcohol_test_active s' = alcohol_test_active s && negb (is_key_s k)
  /\ count is_alcohol_email (out s')
     = (count is_alcohol_email (out s) + (if failed then 1 else 0))%nat
  /\ (judged = true -> alcohol_test_failed s' = failed)
  /\ (failed = true -> buzzer_active s' = true).
Proof.
  unfold keyboard. flat_state s.
  destruct k; cbn -[Speech.verify_speech];
    try (destruct ata; cbn -[Speech.verify_speech];
         [destruct (Speech.verify_speech tt heard); cbn|]);
    count_norm; rewrite ?andb_true_r, ?andb_false_r;
    repeat apply conj; try reflexivity; try lia; try discriminate.
Qed.

(** One iteration, as seen by the sobriety test. *)
Lemma tick_sobriety f s :
  window_ok s -> calibration_ok s ->
  let active := alcohol_test_active s || check_alcohol_level (alcohol f) in
  let prompt := if alcohol_test_active s then test_text s
                else if check_alcohol_level (alcohol f)
                     then generate_random_text (sample f)
                     else test_text s in
  let judged := is_key_s (pressed f) && active in
  let failed := judged && negb (Speech.verify_speech prompt (speech f)) in
  exists ctl s',
    tick float np_mean (Some f) s = Ok (ctl, s')
    /\ test_text s' = prompt
    /\ alcohol_test_active s' = active && negb (is_key_s (pressed f))
    /\ count is_alcohol_email (out s')
       = (count is_alcohol_email (out s) + (if failed then 1 else 0))%nat
    /\ (judged = true -> alcohol_test_failed s' = failed)
    /\ (failed = true -> buzzer_active s' = true).
Proof.
  intros Hw Hc. cbv zeta.
  destruct (tick_chain float np_mean f s Hw Hc)
    as (g & s1 & t & s2 & Hs & Hw1 & Hc1 & Hf & _ & _ & Ht).
  pose proof (sensor_phase_sobriety f s) as H1. rewrite Hs in H1.
  cbn [snd] in H1. cbv zeta in H1. destruct H1 as (Ha1 & Ht1 & Hn1).
  destruct (face_phase_sobriety _ _ _ _ Hw1 Hc1 Hf) as (Ha2 & Ht2 & _ & Hn2).
  pose proof (alert_logic_debounce t (now f) g s2) as (_ & _ & Ha3 & _).
  pose proof (alert_logic_sobriety t (now f) g s2) as (Ht3 & Hn3).
  pose proof (keyboard_sobriety (pressed f) (speech f) g
                (alert_logic t (now f) g s2)) as H4.
  destruct (keyboard _ _ _ _) as [ctl s'] eqn:Ek. cbn [snd] in H4.
  cbv zeta in H4. rewrite Ht3, Ha3, Hn3, Ht2, Ha2, Hn2, Ht1, Ha1, Hn1 in H4.
  exists ctl, s'. split; [exact Ht|]. exact H4.
Qed.

(** X7.  A pending sobriety test keeps its prompt: while a test is active,
    an iteration in which [s] is not pressed leaves the test active and the
    prompt text unchanged, whatever the alcohol sensor reads; an iteration
    in which [s] is pressed ends the test. *)
Theorem sobriety_prompt_is_stable (f : frame) (s : state) :
  window_ok s -> calibration_ok s -> alcohol_test_active s = true ->
  exists ctl s',
    tick float np_mean (Some f) s = Ok (ctl, s')
    /\ test_text s' = test_text s
    /\ (pressed f <> KeyS -> alcohol_test_active s' = true)
    /\ (pressed f = KeyS -> alcohol_test_active s' = false).
Proof.
  intros Hw Hc Hact.
  destruct (tick_sobriety f s Hw Hc) as (ctl & s' & Ht & Htext & Ha & _).
  rewrite Hact in Htext, Ha. cbn [orb andb] in Ha.
  exists ctl, s'. split; [exact Ht|]. split; [exact Htext|].
  rewrite Ha. split.
  - intros Hk. destruct (pressed f); try reflexivity. congruence.
  - intros ->. reflexivity.
Qed.

(** X8.  The intoxication e-mail is sent exactly by an iteration in which
    [s] is pressed, a test is active (pending, or started by this
    iteration's sensor reading) and the transcript fails the check against
    the prompt; such an iteration sets the failed flag and turns the buzzer
    on, and no other iteration sends that e-mail. *)
Theorem intoxication_email_iff_failed_test (f : frame) (s : state) :
  window_ok s -> calibration_ok s ->
  exists ctl s',
    tick float np_mean (Some f) s = Ok (ctl, s')
    /\ ((pressed f = KeyS
         /\ (alcohol_test_active s = true
             \/ check_alcohol_level (alcohol f) = true)
         /\ Speech.verify_speech
              (if alcohol_test_active s then test_text s
               else generate_random_text (sample f)) (speech f) = false) ->
        count is_alcohol_email (out s')
        = S (count is_alcohol_email (out s))
        /\ alcohol_test_failed s' = true /\ buzzer_active s' = true
        /\ alcohol_test_active s' = false)
    /\ (~ (pressed f = KeyS
           /\ (alcohol_test_active s = true
               \/ check_alcohol_level (alcohol f) = true)
           /\ Speech.verify_speech
                (if alcohol_test_active s then test_text s
                 else generate_random_text (sample f)) (speech f) = false) ->
        count is_alcohol_email (out s') = count is_alcohol_email (out s)).
Proof.
  intros Hw Hc.
  destruct (tick_sobriety f s Hw Hc)
    as (ctl & s' & Ht & _ & Ha & Hn & Hfail & Hbz).
  exists ctl, s'. split; [exact Ht|]. split.
  - intros (Hk & Hact & Hv). rewrite Hk in *. cbn [is_key_s andb negb] in *.
    rewrite andb_false_r in Ha.
    assert (E : alcohol_test_active s || check_alcohol_level (alcohol f) = true)
      by (destruct Hact as [-> | ->]; rewrite ?orb_true_r; reflexivity).
    rewrite E in *. cbn [andb] in *.
    assert (E2 : Speech.verify_speech
                   (if alcohol_test_active s then test_text s
                    else if check_alcohol_level (alcohol f)
                         then generate_random_text (sample f)
                         else test_text s) (speech f) = false).
    { destruct (alcohol_test_active s); [exact Hv|].
      destruct Hact as [?| ->]; [discriminate | exact Hv]. }
    rewrite E2 in *. cbn [negb] in *.
    split; [lia|]. split; [apply Hfail; reflexivity|].
    split; [apply Hbz; reflexivity | exact Ha].
  - intros Hnot. rewrite Hn.
    destruct (is_key_s (pressed f)) eqn:Ek; [|cbn [andb]; lia].
    destruct (alcohol_test_active s || check_alcohol_level (alcohol f)) eqn:E;
      [|cbn [andb]; lia].
    cbn [andb].
    destruct (Speech.verify_speech _ (speech f)) eqn:Ev; [cbn [negb]; lia|].
    destruct Hnot. split; [destruct (pressed f); try discriminate; reflexivity|].
    split.
    + apply orb_true_iff in E. exact E.
    + destruct (alcohol_test_active s); [exact Ev|].
      cbn [orb] in E. rewrite E in Ev. exact Ev.
Qed.

Lemma tick_not_tilted input s ctl s' :
  window_ok s -> calibration_ok s ->
  not_tilted input = true -> accident_detected s = false ->
  tick float np_mean input s = Ok (ctl, s') ->
  accident_detected s' = false
  /\ count is_accident_email (out s') = count is_accident_email (out s).
Proof.
  intros Hw Hc Hcalm Hacc Ht. destruct input as [f|];
    [|cbn in Ht; injection Ht as _ <-; auto].
  cbn [not_tilted] in Hcalm. apply negb_true_iff in Hcalm.
  destruct (tick_chain float np_mean f s Hw Hc)
    as (g & s1 & t & s2 & Hs & Hw1 & Hc1 & Hf & _ & _ & Ht').
  rewrite Ht in Ht'. injection Ht' as Hk.
  pose proof (sensor_phase_spec float f s) as Hsp. rewrite Hs in Hsp.
  cbv zeta in Hsp. rewrite Hcalm, Hacc in Hsp. cbn [orb andb] in Hsp.
  rewrite app_nil_r in Hsp.
  destruct Hsp as (_ & _ & _ & _ & _ & Hacc1 & _ & Hout1).
  destruct (face_phase_spec np_mean (rects f) s1 Hw1 Hc1)
    as (t' & s2' & Hf' & _ & _ & Hacc2 & _ & _ & _ & _ & Hcnt2 & _).
  rewrite Hf in Hf'. injection Hf' as <- <-.
  pose proof (alert_logic_debounce t (now f) g s2) as (_ & Hacc3 & _ & _ & Hcnt3).
  pose proof (keyboard_spec (pressed f) (speech f) g
                (alert_logic t (now f) g s2)) as Hkb.
  rewrite <- Hk in Hkb.
  destruct Hkb as (_ & _ & _ & _ & _ & Hcnt4 & Hkeep & Hreset & _).
  split.
  - destruct (pressed f) eqn:Ek;
      try (rewrite Hkeep by discriminate; congruence).
    apply Hreset. reflexivity.
  - rewrite Hcnt4, Hcnt3, Hcnt2, Hout1. reflexivity.
Qed.

(** X9.  Without a tilt reading above 45 degrees there is no accident: if
    every iteration has no reading (accelerometer absent or failing) or a
    reading of at most 45, the latch is never set and no accident e-mail is
    sent. *)
Theorem no_tilt_no_accident (inputs : list (option frame)) :
  forallb not_tilted inputs = true ->
  exists s,
    main_loop float np_mean inputs initial = Ok s
    /\ accident_detected s = false
    /\ count is_accident_email (out s) = 0%nat.
Proof.
  intros Hall.
  assert (H : forall s, window_ok s -> calibration_ok s ->
            accident_detected s = false ->
            exists s', main_loop float np_mean inputs s = Ok s'
                       /\ accident_detected s' = false
                       /\ count is_accident_email (out s')
                          = count is_accident_email (out s)).
  { induction inputs as [|i rest IH]; intros s Hw Hc Hacc; cbn [main_loop].
    - exists s. auto.
    - cbn [forallb] in Hall. apply andb_prop in Hall as [Hi Hrest].
      destruct (tick_ok float np_mean i s Hw Hc) as (ctl & s1 & Ht & Hw1 & Hc1).
      destruct (tick_not_tilted _ _ _ _ Hw Hc Hi Hacc Ht) as [Hacc1 Hn1].
      rewrite Ht. cbn [bind]. destruct ctl; [|exists s1; auto].
      destruct (IH Hrest s1 Hw1 Hc1 Hacc1) as (s' & Hl & Ha & Hn).
      exists s'. split; [exact Hl|]. split; [exact Ha | congruence]. }
  destruct (H initial) as (s & Hl & Ha & Hn); try apply initial_ok;
    [reflexivity|].
  exists s. auto.
Qed.

(** The alert logic on a triggered iteration of an active alert. *)
Lemma alert_logic_escalation clock g s t0 :
  alert_active s = true -> beep_start_time s = Some t0 ->
  let s' := alert_logic true clock g s in
  (clock - t0 < BEEP_DURATION \/ t0 == 0 -> s' = s)
  /\ (~ t0 == 0 -> BEEP_DURATION <= clock - t0 ->
        buzzer_active s' = true
        /\ drowsiness_email_sent s' = true
        /\ count is_drowsiness_email (out s')
           = (count is_drowsiness_email (out s)
              + (if drowsiness_email_sent s then 0 else 1))%nat).
Proof.
  unfold alert_logic. flat_state s. intros -> ->. cbn.
  destruct (Qeq_bool t0 0) eqn:E0; cbn.
  - apply Qeq_bool_iff in E0. split; [reflexivity|].
    intros Hne. destruct (Hne E0).
  - destruct (Qge_bool (clock - t0) BEEP_DURATION) eqn:Eg; unfold Qge_bool in Eg.
    + apply Qle_bool_iff in Eg. split.
      * intros [Hlt | H0].
        -- destruct (Qlt_not_le _ _ Hlt Eg).
        -- apply Qeq_bool_neq in E0. destruct (E0 H0).
      * intros _ _. destruct ba, des; cbn; count_norm;
          repeat apply conj; try reflexivity; lia.
    + split; [reflexivity|]. intros _ Hge.
      apply Qle_bool_iff in Hge. congruence.
Qed.

(** X10.  Escalation needs six seconds of tone.  On a triggered iteration
    of an already active alert, nothing escalates while the clock is less
    than [BEEP_DURATION] past the start time (or the start time is exactly
    zero): no e-mail, no change of the buzzer by the alert logic.  From six
    seconds on the buzzer is on and the drowsiness e-mail has been sent,
    once. *)
Theorem escalation_after_beep_duration (f : frame) (s : state) (t0 : Q) :
  window_ok s -> calibration_ok s ->
  tick_trigger float np_mean f s = Ok true ->
  alert_active s = true -> beep_start_time s = Some t0 ->
  exists s2,
    tick_alerted float np_mean f s = Ok s2
    /\ alert_active s2 = true /\ beep_start_time s2 = Some t0
    /\ (now f - t0 < BEEP_DURATION \/ t0 == 0 ->
          drowsiness_email_sent s2 = drowsiness_email_sent s
          /\ count is_drowsiness_email (out s2)
             = count is_drowsiness_email (out s)
          /\ buzzer_active s2 = buzzer_active (snd (sensor_phase float f s)))
    /\ (~ t0 == 0 -> BEEP_DURATION <= now f - t0 ->
          buzzer_active s2 = true
          /\ drowsiness_email_sent s2 = true
          /\ count is_drowsiness_email (out s2)
             = (count is_drowsiness_email (out s)
                + (if drowsiness_email_sent s then 0 else 1))%nat).
Proof.
  intros Hw Hc Htrig Hal Hbeep.
  destruct (tick_chain float np_mean f s Hw Hc)
    as (g & s1 & t & s2 & Hs & Hw1 & Hc1 & Hf & Htrig' & Hta & _).
  rewrite Htrig in Htrig'. injection Htrig' as <-.
  pose proof (sensor_phase_spec float f s) as Hsp. rewrite Hs in Hsp.
  cbv zeta in Hsp. destruct Hsp as (_ & Ha1 & Hb1 & Hd1 & _ & _ & _ & Hout1).
  assert (Hn1 : count is_drowsiness_email (out s1)
                = count is_drowsiness_email (out s)).
  { rewrite Hout1. destruct (_ && _); count_norm; lia. }
  destruct (face_phase_spec np_mean (rects f) s1 Hw1 Hc1)
    as (t' & s2' & Hf' & _ & _ & _ & _ & _ & _ & _ & _ & Hfaces & Hnone).
  rewrite Hf in Hf'. injection Hf' as <- <-.
  assert (Hsame : same_alerts s1 s2).
  { destruct (rects f) as [|x r] eqn:Er.
    - destruct (Hnone eq_refl) as (Hfalse & _). discriminate.
    - apply Hfaces. discriminate. }
  destruct Hsame as (Ha2 & Hb2 & Hbz2 & _ & _ & _ & Hd2 & Ho2).
  assert (Hal2 : alert_active s2 = true) by congruence.
  assert (Hbeep2 : beep_start_time s2 = Some t0) by congruence.
  destruct (alert_logic_escalation (now f) g s2 t0 Hal2 Hbeep2) as [Hwait Hgo].
  pose proof (alert_logic_triggered (now f) g s2) as (Hx & _ & Hkeep).
  destruct (Hkeep Hal2) as (Hb3 & _).
  exists (alert_logic true (now f) g s2). rewrite Hs. cbn [snd].
  split; [exact Hta|]. split; [exact Hx|]. split; [congruence|]. split.
  - intros Hcase. rewrite (Hwait Hcase). repeat apply conj; congruence.
  - intros Hne Hge. destruct (Hgo Hne Hge) as (H1 & H2 & H3).
    split; [exact H1|]. split; [exact H2|]. rewrite H3, Ho2, Hn1, Hd2, Hd1.
    reflexivity.
Qed.

End Session.

Lemma sobriety_prompt_is_stable_witness :
  exists ctl s',
    tick Gps.decimal_float mean_seq
      (Some {| gps_serial := None; tilt := None; alcohol := Some 0.9;
               sample := ["guitar"; "jacket"; "kitchen"; "apple"]%string;
               rects := []; now := 5; pressed := KeyNone;
               speech := Speech.OtherError |})
      (set_test_text "apple banana computer elephant"
         (set_alcohol_test_active true initial))
    = Ok (ctl, s')
    /\ test_text s' = "apple banana computer elephant"%string.
Proof.
  destruct (sobriety_prompt_is_stable Gps.decimal_float mean_seq
              {| gps_serial := None; tilt := None; alcohol := Some 0.9;
                 sample := ["guitar"; "jacket"; "kitchen"; "apple"]%string;
                 rects := []; now := 5; pressed := KeyNone;
                 speech := Speech.OtherError |}
              (set_test_text "apple banana computer elephant"
                 (set_alcohol_test_active true initial)))
    as (ctl & s' & Ht & Htext & _).
  - unfold window_ok. cbn. lia.
  - unfold calibration_ok. cbn. unfold CALIB_FRAMES. lia.
  - reflexivity.
  - exists ctl, s'. split; [exact Ht | exact Htext].
Defined.

Lemma intoxication_email_iff_failed_test_witness :
  exists ctl s',
    tick Gps.decimal_float mean_seq (Some failed_sobriety_frame) initial = Ok (ctl, s')
    /\ count is_alcohol_email (out s') = 1%nat.
Proof.
  destruct (intoxication_email_iff_failed_test Gps.decimal_float mean_seq
              failed_sobriety_frame initial)
    as (ctl & s' & Ht & Hsend & _); try apply initial_ok.
  exists ctl, s'. split; [exact Ht|].
  apply Hsend. split; [reflexivity|]. split.
  - right. vm_compute. reflexivity.
  - vm_compute. reflexivity.
Defined.

Lemma no_tilt_no_accident_witness :
  exists s,
    main_loop Gps.decimal_float mean_seq
      [Some (quiet (Some 45) [] 0); Some (quiet None [eyes_closed] 1); None]
      initial = Ok s
    /\ accident_detected s = false.
Proof.
  destruct (no_tilt_no_accident Gps.decimal_float mean_seq
              [Some (quiet (Some 45) [] 0); Some (quiet None [eyes_closed] 1);
               None])
    as (s & Hl & Ha & _).
  - vm_compute. reflexivity.
  - exists s. auto.
Defined.

Lemma escalation_after_beep_duration_witness :
  exists s2,
    tick_alerted Gps.decimal_float mean_seq (quiet None [eyes_closed] 106)
      (set_COUNTER 25
         (set_alert_active true (set_beep_start_time (Some 100) initial)))
    = Ok s2
    /\ buzzer_active s2 = true
    /\ count is_drowsiness_email (out s2) = 1%nat.
Proof.
  destruct (escalation_after_beep_duration Gps.decimal_float mean_seq
              (quiet None [eyes_closed] 106)
              (set_COUNTER 25
                 (set_alert_active true
                    (set_beep_start_time (Some 100) initial))) 100)
    as (s2 & Ht & _ & _ & _ & Hgo).
  - unfold window_ok. cbn. lia.
  - unfold calibration_ok. cbn. unfold CALIB_FRAMES. lia.
  - vm_compute. reflexivity.
  - reflexivity.
  - reflexivity.
  - exists s2. split; [exact Ht|].
    destruct Hgo as (H1 & _ & H3).
    + intros H. discriminate H.
    + unfold BEEP_DURATION. unfold Qle. cbn. lia.
    + split; [exact H1 | exact H3].
Defined.

(** * Further properties of the GPS code *)

Module GpsMore.
Import Gps.

Section Parser.

Variable float : string -> option Q.

Lemma read_lines_firstn n : forall port,
  read_lines float n port = read_lines float n (firstn n port).
Proof.
  induction n as [|n IH]; intros port; [reflexivity|].
  destruct port as [|r rest]; [reflexivity|].
  cbn [firstn read_lines next_read].
  destruct r as [line|]; [|reflexivity].
  destruct (parse_sentence float line); try reflexivity. apply IH.
Qed.

(** X11.  One call of [parse_gps_data] looks at no more than ten lines of
    the serial port: two ports that agree on their first ten lines give the
    same value and the same stored coordinates, so a valid sentence that
    arrives as the eleventh line or later is not used by this call. *)
Theorem parse_gps_data_reads_ten_lines (port port' : list readline)
    (last : coords) :
  firstn 10 port = firstn 10 port' ->
  parse_gps_data float (Some port) last
  = parse_gps_data float (Some port') last.
Proof.
  intros H. unfold parse_gps_data.
  rewrite (read_lines_firstn 10 port), (read_lines_firstn 10 port'), H.
  reflexivity.
Qed.

Lemma read_lines_skip pre : forall n x rest,
  Forall (fun l => parse_sentence float l = Skip) pre ->
  (length pre < n)%nat ->
  read_lines float n (map Line pre ++ x :: rest)
  = read_lines float (n - length pre) (x :: rest).
Proof.
  induction pre as [|l pre IH]; intros n x rest Hall Hlen.
  - cbn [map app length]. rewrite Nat.sub_0_r. reflexivity.
  - inversion Hall as [|? ? Hl Hrest]; subst. cbn [length] in Hlen.
    destruct n as [|n]; [lia|].
    cbn [map app read_lines next_read length Nat.sub]. rewrite Hl.
    apply IH; [exact Hrest | lia].
Qed.

(** X12.  Within a call the first decisive line wins.  After fewer than ten
    lines that are skipped (not a GGA sentence, or one with empty or missing
    fields), a fully parsed GGA sentence becomes the new fix whatever
    follows it; a serial error, or a GGA sentence whose numbers do not
    convert, ends the call with the fix unchanged even if a valid sentence
    follows. *)
Theorem first_decisive_line_wins (pre : list string) (rest : list readline)
    (last : coords) :
  Forall (fun l => parse_sentence float l = Skip) pre ->
  (length pre < 10)%nat ->
  (forall line c, parse_sentence float line = Fix c ->
     parse_gps_data float (Some (map Line pre ++ Line line :: rest)) last
     = (c, c))
  /\ (forall line, parse_sentence float line = Raised ->
        parse_gps_data float (Some (map Line pre ++ Line line :: rest)) last
        = (last, last))
  /\ parse_gps_data float (Some (map Line pre ++ SerialError :: rest)) last
     = (last, last).
Proof.
  intros Hall Hlen. unfold parse_gps_data.
  assert (Hn : exists m, (10 - length pre = S m)%nat)
    by (exists (9 - length pre)%nat; lia).
  destruct Hn as [m Hm].
  repeat apply conj.
  - intros line c Hc. rewrite (read_lines_skip pre 10 _ rest Hall Hlen), Hm.
    cbn [read_lines next_read]. rewrite Hc. reflexivity.
  - intros line Hr. rewrite (read_lines_skip pre 10 _ rest Hall Hlen), Hm.
    cbn [read_lines next_read]. rewrite Hr. reflexivity.
  - rewrite (read_lines_skip pre 10 _ rest Hall Hlen), Hm. reflexivity.
Qed.

(** X13.  The parser of the GPS test script and the parser of the safety
    system agree on GGA sentences: whatever [parse_gpgga] accepts, the main
    system parses to the same latitude and longitude; and a sentence the
    main system parses is accepted by [parse_gpgga] as soon as it has at
    least ten fields, with the altitude taken from the tenth field (the
    "N/A" default is never used). *)
Theorem test_script_parser_agrees (line : string) :
  String.prefix "$GPGGA" line || String.prefix "$GNGGA" line = true ->
  (forall d, GpsTest.parse_gpgga float line = Some d ->
     parse_sentence float line
     = Fix {| lat := Some (GpsTest.gga_lat d);
              lon := Some (GpsTest.gga_lon d) |})
  /\ (forall c, parse_sentence float line = Fix c ->
        (10 <= length (split_comma EmptyString line))%nat ->
        exists d,
          GpsTest.parse_gpgga float line = Some d
          /\ c = {| lat := Some (GpsTest.gga_lat d);
                    lon := Some (GpsTest.gga_lon d) |}
          /\ GpsTest.altitude d = nth 9 (split_comma EmptyString line) EmptyString)
  /\ (forall d, GpsTest.parse_gpgga float line = Some d ->
        (10 <= length (split_comma EmptyString line))%nat
        /\ GpsTest.altitude d = nth 9 (split_comma EmptyString line) EmptyString).
Proof.
  intros Hp. unfold GpsTest.parse_gpgga, parse_sentence. rewrite Hp.
  set (parts := split_comma EmptyString line).
  destruct (Nat.ltb_spec (length parts) 10) as [Hlt|Hge].
  - repeat apply conj.
    + discriminate.
    + intros c _ H. lia.
    + discriminate.
  - assert (H6 : (6 <? length parts)%nat = true) by (apply Nat.ltb_lt; lia).
    assert (H9 : (9 <? length parts)%nat = true) by (apply Nat.ltb_lt; lia).
    rewrite H6, H9. cbn [andb].
    destruct (truthy (nth 2 parts EmptyString)); cbn [negb orb andb];
      [|repeat apply conj; discriminate].
    destruct (truthy (nth 4 parts EmptyString)); cbn [negb orb andb];
      [|repeat apply conj; discriminate].
    destruct (float (take 2 (nth 2 parts EmptyString)));
      [|repeat apply conj; discriminate].
    destruct (float (drop 2 (nth 2 parts EmptyString)));
      [|repeat apply conj; discriminate].
    destruct (float (take 3 (nth 4 parts EmptyString)));
      [|repeat apply conj; discriminate].
    destruct (float (drop 3 (nth 4 parts EmptyString)));
      [|repeat apply conj; discriminate].
    repeat apply conj.
    + intros d [= <-]. reflexivity.
    + intros c [= <-] _. eexists. split; [reflexivity|]. split; reflexivity.
    + intros d [= <-]. split; [exact Hge | reflexivity].
Qed.

(** The reading loop of the test script keeps its counters and its output
    in step. *)
Lemma count_printed_app p l l' :
  GpsTest.count_printed p (l ++ l')
  = (GpsTest.count_printed p l + GpsTest.count_printed p l')%nat.
Proof.
  unfold GpsTest.count_printed. rewrite List.filter_app, length_app.
  reflexivity.
Qed.

Lemma quiet_after_banner_snoc l x :
  GpsTest.quiet_after_banner l = true ->
  (GpsTest.is_waiting x = false
   \/ GpsTest.count_printed GpsTest.is_banner l = 0%nat) ->
  GpsTest.quiet_after_banner (l ++ [x]) = true.
Proof.
  induction l as [|p l IH]; intros Hq Hx.
  - destruct x; reflexivity.
  - destruct p; cbn [app GpsTest.quiet_after_banner] in *;
      try (apply IH; [exact Hq|];
           destruct Hx as [Hx|Hx]; [left; exact Hx | right; exact Hx]).
    rewrite forallb_app, Hq. cbn [forallb andb].
    destruct Hx as [-> | Hx]; [reflexivity | discriminate Hx].
Qed.

#[local] Arguments GpsTest.count_printed : simpl never.

Ltac printed_norm :=
  rewrite ?count_printed_app;
  repeat match goal with
    | |- context [GpsTest.count_printed ?p (?e :: ?l)] =>
        let v := eval cbv in (GpsTest.count_printed p (e :: l)) in
        change (GpsTest.count_printed p (e :: l)) with v
    end.

Lemma monitor_step_inv raw m :
  GpsTest.monitor_inv m ->
  GpsTest.monitor_inv (GpsTest.monitor_step float raw m)
  /\ (GpsTest.valid_data_count m
      <= GpsTest.valid_data_count (GpsTest.monitor_step float raw m)
      <= S (GpsTest.valid_data_count m))%nat.
Proof.
  intros Hinv. unfold GpsTest.monitor_step.
  destruct (truthy (GpsTest.strip raw)); [|split; [exact Hinv | lia]].
  set (m1 := if String.prefix "$" (GpsTest.strip raw)
             then GpsTest.show (GpsTest.Raw (take 60 (GpsTest.strip raw))) m
             else m).
  assert (H1 : GpsTest.monitor_inv m1
               /\ GpsTest.valid_data_count m1 = GpsTest.valid_data_count m).
  { unfold m1. destruct (String.prefix "$" (GpsTest.strip raw));
      [|split; [exact Hinv | reflexivity]].
    destruct Hinv as (Hfix & Hban & Hread & Hq).
    destruct m as [fx n sh]. unfold GpsTest.monitor_inv, GpsTest.show in *.
    cbn [GpsTest.fix_acquired GpsTest.valid_data_count GpsTest.shown] in *.
    printed_norm. rewrite Hban, Hread.
    split; [|reflexivity]. repeat apply conj; auto; try lia.
    apply quiet_after_banner_snoc; [exact Hq | left; reflexivity]. }
  clearbody m1. clear Hinv.
  destruct H1 as ((Hfix & Hban & Hread & Hq) & Hc). rewrite <- Hc.
  destruct (_ || _); [|split; [repeat apply conj; auto | lia]].
  destruct m1 as [fx n sh].
  cbn [GpsTest.fix_acquired GpsTest.valid_data_count GpsTest.shown] in *.
  destruct (GpsTest.parse_gpgga float (GpsTest.strip raw)) as [data|].
  - subst fx. unfold GpsTest.monitor_inv, GpsTest.show.
    destruct n as [|n];
      cbn [GpsTest.fix_acquired GpsTest.valid_data_count GpsTest.shown
           Nat.ltb Nat.leb negb Nat.add] in *;
      printed_norm; rewrite Hban, Hread.
    + split; [|lia]. repeat apply conj; try reflexivity.
      apply quiet_after_banner_snoc; [|left; reflexivity].
      apply quiet_after_banner_snoc; [exact Hq | right; exact Hban].
    + split; [|lia]. repeat apply conj; try reflexivity; try lia.
      apply quiet_after_banner_snoc; [exact Hq | left; reflexivity].
  - destruct fx;
      cbn [negb GpsTest.fix_acquired GpsTest.valid_data_count GpsTest.shown];
      [split; [repeat apply conj; auto | lia]|].
    unfold GpsTest.monitor_inv, GpsTest.show.
    cbn [GpsTest.fix_acquired GpsTest.valid_data_count GpsTest.shown] in *.
    printed_norm. rewrite Hban, Hread.
    split; [|lia]. repeat apply conj; auto; try lia.
    apply quiet_after_banner_snoc; [exact Hq | right; exact Hban].
Qed.

(** X14.  The reading loop of the test script keeps its report consistent:
    after any lines, [fix_acquired] is set exactly when at least one valid
    reading was counted, the "GPS FIX ACQUIRED" banner was printed once in
    that case and never otherwise, one reading was printed per counted
    reading, no "Waiting for GPS fix" line follows the banner, and the count
    is at most the number of lines read. *)
Theorem gps_monitor_report_is_consistent (lines : list string) :
  let m := GpsTest.monitor_run float lines in
  GpsTest.fix_acquired m = (0 <? GpsTest.valid_data_count m)%nat
  /\ GpsTest.count_printed GpsTest.is_banner (GpsTest.shown m)
     = (if GpsTest.fix_acquired m then 1 else 0)%nat
  /\ GpsTest.count_printed GpsTest.is_reading (GpsTest.shown m)
     = GpsTest.valid_data_count m
  /\ GpsTest.quiet_after_banner (GpsTest.shown m) = true
  /\ (GpsTest.valid_data_count m <= length lines)%nat.
Proof.
  unfold GpsTest.monitor_run.
  assert (H : forall m0, GpsTest.monitor_inv m0 ->
            let m := fold_left (fun m raw => GpsTest.monitor_step float raw m)
                       lines m0 in
            GpsTest.monitor_inv m
            /\ (GpsTest.valid_data_count m
                <= GpsTest.valid_data_count m0 + length lines)%nat).
  { induction lines as [|raw rest IH]; intros m0 Hinv; cbn [fold_left length].
    - split; [exact Hinv | lia].
    - destruct (monitor_step_inv raw m0 Hinv) as [Hinv1 Hle].
      destruct (IH _ Hinv1) as [Hinv' Hle']. split; [exact Hinv' | lia]. }
  destruct (H GpsTest.monitor_start) as [(H1 & H2 & H3 & H4) H5].
  { unfold GpsTest.monitor_inv. cbn. auto. }
  cbn [GpsTest.monitor_start GpsTest.valid_data_count Nat.add] in H5. auto.
Qed.

End Parser.

Lemma parse_gps_data_reads_ten_lines_witness :
  parse_gps_data decimal_float
    (Some (repeat (Line "$GPRMC,1") 10
           ++ [Line "$GPGGA,123519,4000.000,N,07300.000,W,1,08,0.9,545.4,M"]))
    {| lat := None; lon := None |}
  = parse_gps_data decimal_float (Some (repeat (Line "$GPRMC,1") 10))
      {| lat := None; lon := None |}.
Proof.
  apply (parse_gps_data_reads_ten_lines decimal_float). reflexivity.
Defined.

Lemma first_decisive_line_wins_witness :
  parse_gps_data decimal_float
    (Some (map Line ["$GPRMC,1"; ""]
           ++ SerialError
           :: [Line "$GPGGA,123519,4000.000,N,07300.000,W,1,08,0.9,545.4,M"]))
    {| lat := Some 1; lon := Some 2 |}
  = ({| lat := Some 1; lon := Some 2 |}, {| lat := Some 1; lon := Some 2 |}).
Proof.
  refine (proj2 (proj2 (first_decisive_line_wins decimal_float
                          ["$GPRMC,1"; ""] _ _ _ _))).
  - repeat constructor.
  - cbn. lia.
Defined.

Lemma test_script_parser_agrees_witness :
  parse_sentence decimal_float
    "$GPGGA,123519,4000.000,N,07300.000,W,1,08,0.9,545.4,M"
  = Fix {| lat := Some (2400000 # 60000); lon := Some (-4380000 # 60000) |}.
Proof.
  refine (proj1 (test_script_parser_agrees decimal_float
                   "$GPGGA,123519,4000.000,N,07300.000,W,1,08,0.9,545.4,M" _)
            {| GpsTest.gga_lat := 2400000 # 60000;
               GpsTest.gga_lon := -4380000 # 60000;
               GpsTest.quality := "1"; GpsTest.satellites := "08";
               GpsTest.altitude := "545.4" |} _).
  - reflexivity.
  - vm_compute. reflexivity.
Defined.

End GpsMore.

(** * Further properties of the sobriety prompt *)

Module PromptFacts.
Import Speech.

Lemma append_snoc cur c w :
  (snoc cur c +:+ w)%string = (cur +:+ String c w)%string.
Proof.
  unfold snoc. induction cur as [|a cur IH]; [reflexivity|].
  change (String a ((cur +:+ String c EmptyString) +:+ w)
          = String a (cur +:+ String c w))%string.
  now rewrite IH.
Qed.

Lemma append_empty cur : (cur +:+ EmptyString)%string = cur.
Proof.
  induction cur as [|a cur IH]; [reflexivity|].
  change (String a (cur +:+ EmptyString) = String a cur)%string.
  now rewrite IH.
Qed.

(** Reading a blank-free word moves it into the word being read. *)
Lemma split_from_word w : forall cur r,
  no_space w = true ->
  split_from cur (w +:+ r) = split_from (cur +:+ w) r.
Proof.
  induction w as [|c w IH]; intros cur r Hw.
  - rewrite append_empty. reflexivity.
  - cbn [no_space] in Hw. apply andb_prop in Hw as [Hc Hw].
    apply negb_true_iff in Hc.
    change (split_from cur (String c (w +:+ r))
            = split_from (cur +:+ String c w) r).
    cbn [split_from]. rewrite Hc, (IH _ _ Hw), append_snoc. reflexivity.
Qed.

Lemma is_word_inv w :
  is_word w = true -> w <> EmptyString /\ no_space w = true.
Proof. destruct w; [discriminate|]. intros H. split; [discriminate | exact H]. Qed.

Lemma split_join sample :
  forallb is_word sample = true -> split (join " " sample) = sample.
Proof.
  induction sample as [|w rest IH]; intros Hall; [reflexivity|].
  cbn [forallb] in Hall. apply andb_prop in Hall as [Hw Hrest].
  destruct (is_word_inv w Hw) as [Hne Hns]. unfold split in *.
  destruct rest as [|w2 rest].
  - cbn [join]. rewrite <- (append_empty w) at 1.
    rewrite (split_from_word w EmptyString EmptyString Hns).
    cbn [String.append split_from]. destruct w; [congruence | reflexivity].
  - change (join " " (w :: w2 :: rest))
      with (w +:+ String " " (join " " (w2 :: rest)))%string.
    rewrite (split_from_word w EmptyString _ Hns).
    cbn [String.append split_from].
    change (is_space " ") with true. cbv iota.
    rewrite (IH Hrest). destruct w; [congruence | reflexivity].
Qed.

(** X15.  The prompt reads back: for blank-free non-empty words, splitting
    the joined prompt gives the words again, in order; so a transcript equal
    to the prompt always passes the verification. *)
Theorem prompt_round_trip (sample : list string) :
  forallb is_word sample = true ->
  split (generate_random_text sample) = sample
  /\ (sample <> [] ->
      verify_speech (generate_random_text sample)
        (Heard (generate_random_text sample)) = true).
Proof.
  intros Hall. unfold generate_random_text.
  pose proof (split_join sample Hall) as Hs. split; [exact Hs|].
  intros Hne. apply SpeechFacts.verify_speech_heard. eexists.
  split; [reflexivity|].
  assert (Hpos : (0 < size (words (lower (join " " sample))))%nat).
  { apply SpeechFacts.words_nonempty. rewrite Hs. exact Hne. }
  split; [exact Hpos|].
  rewrite (subseteq_intersection_1_L (words (lower (join " " sample)))
             (words (lower (join " " sample)))) by reflexivity.
  lia.
Qed.

Lemma vocabulary_words :
  Forall (fun w => is_word w = true /\ lower w = w) vocabulary.
Proof. repeat constructor. Qed.

Lemma sample_words sample :
  (forall w, In w sample -> In w vocabulary) ->
  forallb is_word sample = true /\ map lower sample = sample.
Proof.
  intros Hin. pose proof vocabulary_words as Hv.
  rewrite Forall_forall in Hv.
  induction sample as [|w rest IH]; [split; reflexivity|].
  assert (Hw : w ∈ vocabulary).
  { apply list_elem_of_In, Hin. left. reflexivity. }
  destruct (Hv w Hw) as [H1 H2].
  destruct IH as [IH1 IH2]; [intros v Hv'; apply Hin; right; exact Hv'|].
  cbn [forallb map]. rewrite H1, H2, IH1, IH2. split; reflexivity.
Qed.

(** X16.  One word may be missed.  For a prompt of four distinct words of
    the vocabulary, as [random.sample] draws them, the verification passes
    exactly when at least three of the four prompt words occur in the
    lowercased transcript. *)
Theorem three_of_four_words_pass (sample : list string) (text : string) :
  (forall w, In w sample -> In w vocabulary) ->
  NoDup sample -> length sample = 4%nat ->
  verify_speech (generate_random_text sample) (Heard text) = true
  <-> (3 <= size (list_to_set sample ∩ words (lower text) : gset string))%nat.
Proof.
  intros Hin Hnd Hlen.
  destruct (sample_words sample Hin) as [Hw Hlow].
  assert (Hwords : words (lower (generate_random_text sample))
                   = list_to_set sample).
  { unfold words, generate_random_text.
    rewrite SpeechFacts.split_lower, (split_join sample Hw), Hlow.
    reflexivity. }
  assert (Hsize : size (list_to_set sample : gset string) = 4%nat).
  { rewrite size_list_to_set; [exact Hlen | exact Hnd]. }
  rewrite SpeechFacts.verify_speech_heard. rewrite Hwords, Hsize. split.
  - intros (t & [= <-] & _ & H). lia.
  - intros H. exists text. split; [reflexivity|]. lia.
Qed.

End PromptFacts.

Lemma prompt_round_trip_witness :
  Speech.split (generate_random_text ["guitar"; "apple"; "kitchen"; "jacket"]%string)
  = ["guitar"; "apple"; "kitchen"; "jacket"]%string.
Proof.
  refine (proj1 (PromptFacts.prompt_round_trip
                   ["guitar"; "apple"; "kitchen"; "jacket"]%string _)).
  reflexivity.
Defined.

Lemma three_of_four_words_pass_witness :
  Speech.verify_speech
    (generate_random_text ["guitar"; "apple"; "kitchen"; "jacket"]%string)
    (Speech.Heard "Kitchen uh guitar JACKET") = true.
Proof.
  refine (proj2 (PromptFacts.three_of_four_words_pass
                   ["guitar"; "apple"; "kitchen"; "jacket"]%string
                   "Kitchen uh guitar JACKET" _ _ _) _).
  - intros w Hw. cbn in Hw. cbn.
    repeat (destruct Hw as [<- | Hw]; [tauto|]). destruct Hw.
  - apply (bool_decide_unpack _). vm_compute. exact I.
  - reflexivity.
  - vm_compute. lia.
Defined.

(** * Properties of the calibration scripts *)

From Stdlib Require Import Lqa.

Module CalibrationFacts.
Import Calibration.

(** [int] on a non-negative number is its floor. *)
Lemma int_floor x :
  0 <= x ->
  (0 <= int x)%Z /\ inject_Z (int x) <= x /\ x < inject_Z (int x) + 1.
Proof.
  destruct x as [n d]. unfold Qle, Qlt, int, inject_Z, Qplus.
  cbn [Qnum Qden]. intros Hn. rewrite Z.mul_1_r in Hn.
  change (0 * Z.pos d)%Z with 0%Z in Hn.
  rewrite Z.quot_div_nonneg by lia.
  pose proof (Z.mul_div_le n (Z.pos d) ltac:(lia)) as H1.
  pose proof (Z.mul_succ_div_gt n (Z.pos d) ltac:(lia)) as H2.
  pose proof (Z.div_pos n (Z.pos d) Hn ltac:(lia)) as H0.
  split; [exact H0|]. split; [lia|].
  rewrite Pos.mul_1_l. nia.
Qed.

Lemma int_bounds x (k : Z) :
  0 <= x ->
  (x < inject_Z k -> (int x < k)%Z)
  /\ (inject_Z k <= x -> (k <= int x)%Z).
Proof.
  intros Hx. destruct (int_floor x Hx) as (H0 & Hlo & Hhi). split.
  - intros H. rewrite Zlt_Qlt. apply (Qle_lt_trans _ x); assumption.
  - intros H.
    assert (Hlt : inject_Z k < inject_Z (int x + 1)).
    { rewrite inject_Z_plus. apply (Qle_lt_trans _ x); assumption. }
    rewrite <- Zlt_Qlt in Hlt. lia.
Qed.

Lemma length_times c n : length (times c n) = Z.to_nat n.
Proof. unfold times. apply repeat_length. Qed.

Lemma count_full_bar a b :
  length (List.filter is_full (times Full a ++ times Light b)) = Z.to_nat a.
Proof.
  unfold times. rewrite List.filter_app, length_app.
  assert (H1 : forall n, List.filter is_full (repeat Full n) = repeat Full n)
    by (induction n as [|n IH]; cbn; [|rewrite IH]; reflexivity).
  assert (H2 : forall n, List.filter is_full (repeat Light n) = [])
    by (induction n as [|n IH]; cbn; [|rewrite IH]; reflexivity).
  rewrite H1, H2, repeat_length. cbn. lia.
Qed.

(** X17.  The bar of the alcohol monitor always has 50 cells: for every
    sensor value between 0 and 1 (ADC value between 0 and 1024) the bar is
    [int(value / 1024 * 50)] full cells followed by light cells up to 50. *)
Theorem alcohol_bar_has_50_cells (value : Q) :
  0 <= value -> value <= 1024 ->
  length (alcohol_bar value) = 50%nat
  /\ length (List.filter is_full (alcohol_bar value))
     = Z.to_nat (int ((value / 1024) * 50))
  /\ (length (List.filter is_full (alcohol_bar value)) <= 50)%nat.
Proof.
  intros Hlo Hhi. unfold alcohol_bar.
  set (x := (value / 1024) * 50).
  assert (Ex : x == value * (50 # 1024)) by (unfold x; field).
  assert (Hx0 : 0 <= x) by (rewrite Ex; lra).
  assert (Hx50 : x < inject_Z 51)
    by (rewrite Ex; change (inject_Z 51) with 51; lra).
  destruct (int_floor x Hx0) as (H0 & _).
  destruct (int_bounds x 51 Hx0) as [Hlt _]. specialize (Hlt Hx50).
  rewrite count_full_bar, length_app, !length_times.
  repeat apply conj; lia.
Qed.

End CalibrationFacts.

Lemma alcohol_bar_has_50_cells_witness :
  length (Calibration.alcohol_bar (0.6 * 1024)) = 50%nat.
Proof.
  refine (proj1 (CalibrationFacts.alcohol_bar_has_50_cells (0.6 * 1024) _ _));
    lra.
Defined.


(** * More on single iterations and on the control of the loop *)

Section Iterations.

Variable float : string -> option Q.
Variable np_mean : list float64 -> float64.

Lemma keyboard_idle_test k heard g s :
  alcohol_test_active s = false -> alcohol_test_failed s = false ->
  alcohol_test_failed (snd (keyboard k heard g s)) = false.
Proof.
  unfold keyboard. flat_state s. intros -> ->. destruct k; reflexivity.
Qed.

Lemma tick_sober input s ctl s' :
  window_ok s -> calibration_ok s -> sober input = true ->
  alcohol_test_active s = false -> alcohol_test_failed s = false ->
  tick float np_mean input s = Ok (ctl, s') ->
  alcohol_test_active s' = false /\ alcohol_test_failed s' = false
  /\ test_text s' = test_text s
  /\ count is_alcohol_email (out s') = count is_alcohol_email (out s).
Proof.
  intros Hw Hc Hsober Hact Hfail Ht. destruct input as [f|];
    [|cbn in Ht; injection Ht as _ <-; auto].
  cbn [sober] in Hsober. apply negb_true_iff in Hsober.
  destruct (tick_sobriety float np_mean f s Hw Hc)
    as (ctl' & s2 & Ht' & Htext & Ha & Hn & _).
  rewrite Ht in Ht'. injection Ht' as <- <-.
  rewrite Hact, Hsober in *. cbn [orb andb] in *.
  rewrite andb_false_r in Hn. cbn [andb] in Hn.
  split; [exact Ha|]. split; [|split; [exact Htext | lia]].
  destruct (tick_chain float np_mean f s Hw Hc)
    as (g & s1 & t & sb & Hs & Hw1 & Hc1 & Hf & _ & _ & Htk).
  rewrite Ht in Htk. injection Htk as Hk.
  pose proof (sensor_phase_spec float f s) as Hsp. rewrite Hs in Hsp.
  cbv zeta in Hsp. destruct Hsp as (_ & _ & _ & _ & Hf1 & _).
  pose proof (sensor_phase_sobriety float f s) as Hss. rewrite Hs in Hss.
  cbn [snd] in Hss. cbv zeta in Hss. destruct Hss as (Ha1 & _).
  rewrite Hact, Hsober in Ha1. cbn [orb] in Ha1.
  destruct (face_phase_sobriety np_mean _ _ _ _ Hw1 Hc1 Hf) as (Ha2 & _ & Hf2 & _).
  pose proof (alert_logic_debounce t (now f) g sb) as (_ & _ & Ha3 & Hf3 & _).
  pose proof (keyboard_idle_test (pressed f) (speech f) g
                (alert_logic t (now f) g sb)) as Hidle.
  rewrite <- Hk in Hidle. cbn [snd] in Hidle. apply Hidle; congruence.
Qed.

(** X20.  Without an alcohol reading above the threshold there is no
    sobriety test: if in every iteration the sensor is absent, fails or
    reads at most [ALCOHOL_THRESHOLD], no test is ever started, no prompt is
    generated, pressing [s] has no effect and no intoxication e-mail is
    sent. *)
Theorem no_alcohol_no_test (inputs : list (option frame)) :
  forallb sober inputs = true ->
  exists s,
    main_loop float np_mean inputs initial = Ok s
    /\ alcohol_test_active s = false
    /\ alcohol_test_failed s = false
    /\ test_text s = EmptyString
    /\ count is_alcohol_email (out s) = 0%nat.
Proof.
  intros Hall.
  assert (H : forall s, window_ok s -> calibration_ok s ->
            alcohol_test_active s = false -> alcohol_test_failed s = false ->
            exists s', main_loop float np_mean inputs s = Ok s'
                       /\ alcohol_test_active s' = false
                       /\ alcohol_test_failed s' = false
                       /\ test_text s' = test_text s
                       /\ count is_alcohol_email (out s')
                          = count is_alcohol_email (out s)).
  { induction inputs as [|i rest IH]; intros s Hw Hc Ha Hf; cbn [main_loop].
    - exists s. auto.
    - cbn [forallb] in Hall. apply andb_prop in Hall as [Hi Hrest].
      destruct (tick_ok float np_mean i s Hw Hc) as (ctl & s1 & Ht & Hw1 & Hc1).
      destruct (tick_sober _ _ _ _ Hw Hc Hi Ha Hf Ht) as (Ha1 & Hf1 & Ht1 & Hn1).
      rewrite Ht. cbn [bind]. destruct ctl; [|exists s1; auto].
      destruct (IH Hrest s1 Hw1 Hc1 Ha1 Hf1) as (s' & Hl & ? & ? & ? & ?).
      exists s'. repeat apply conj; try assumption; congruence. }
  destruct (H initial) as (s & Hl & Ha & Hf & Ht & Hn);
    try apply initial_ok; try reflexivity.
  exists s. auto.
Qed.

(** X21.  A frame without a face interrupts the eye counter and nothing
    else of the debouncing: it never triggers, it puts [COUNTER] back to
    zero, and it leaves the smoothing window, the baseline and the
    calibration counter as they were. *)
Theorem face_gap_resets_counter_only (f : frame) (s : state) :
  window_ok s -> calibration_ok s -> rects f = [] ->
  exists ctl s',
    tick float np_mean (Some f) s = Ok (ctl, s')
    /\ tick_trigger float np_mean f s = Ok false
    /\ COUNTER s' = 0%nat
    /\ lip_hist s' = lip_hist s
    /\ calib_base s' = calib_base s
    /\ calib_count s' = calib_count s.
Proof.
  intros Hw Hc Hr.
  destruct (tick_chain float np_mean f s Hw Hc)
    as (g & s1 & t & s2 & Hs & Hw1 & Hc1 & Hf & Htrig & _ & Ht).
  pose proof (sensor_phase_spec float f s) as Hsp. rewrite Hs in Hsp.
  cbv zeta in Hsp. destruct Hsp as ((_ & Hl1 & Hb1 & Hn1) & _).
  destruct (face_phase_spec np_mean (rects f) s1 Hw1 Hc1)
    as (t' & s2' & Hf' & _ & _ & _ & _ & _ & _ & _ & _ & _ & Hnone).
  rewrite Hf in Hf'. injection Hf' as <- <-.
  destruct (Hnone Hr) as (-> & Hk2 & Hl2 & Hb2 & Hn2 & _).
  pose proof (alert_logic_debounce false (now f) g s2)
    as ((Hk3 & Hl3 & Hb3 & Hn3) & _).
  pose proof (keyboard_spec (pressed f) (speech f) g
                (alert_logic false (now f) g s2)) as Hkb.
  destruct (keyboard _ _ _ _) as [ctl s'].
  destruct Hkb as ((Hk4 & Hl4 & Hb4 & Hn4) & _).
  exists ctl, s'. split; [exact Ht|]. split; [exact Htrig|].
  repeat apply conj; congruence.
Qed.

Lemma alert_logic_out t clock g s :
  exists more, out (alert_logic t clock g s) = out s ++ more.
Proof.
  unfold alert_logic. flat_state s.
  destruct t, aa, ad, ba, des; cbn;
    try (destruct bst as [t0|]; cbn;
         [destruct (negb (Qeq_bool t0 0) && Qge_bool (clock - t0) BEEP_DURATION)|];
         cbn);
    rewrite <- ?app_assoc;
    solve [eexists; reflexivity | exists []; rewrite app_nil_r; reflexivity].
Qed.

Lemma keyboard_out k heard g s :
  exists more, out (snd (keyboard k heard g s)) = out s ++ more.
Proof.
  unfold keyboard. flat_state s.
  destruct k; cbn -[Speech.verify_speech];
    try (destruct ata; cbn -[Speech.verify_speech];
         [destruct (Speech.verify_speech tt heard); cbn|]);
    rewrite <- ?app_assoc;
    solve [eexists; reflexivity | exists []; rewrite app_nil_r; reflexivity].
Qed.

(** X22.  An iteration that reads a tilt above 45 degrees while the latch
    is clear sends exactly one accident e-mail; the e-mail carries the angle
    just read and the coordinates [parse_gps_data] returned in this same
    iteration, and the buzzer is activated before it is sent. *)
Theorem accident_email_carries_angle_and_fix (f : frame) (s : state)
    (angle : Q) :
  window_ok s -> calibration_ok s ->
  accident_detected s = false ->
  tilt f = Some angle -> TILT_THRESHOLD < angle ->
  exists ctl s' more,
    tick float np_mean (Some f) s = Ok (ctl, s')
    /\ out s'
       = out s
         ++ [BuzzerOn;
             Email (Accident angle)
               (fst (Gps.parse_gps_data float (gps_serial f)
                       (last_gps_coords s)))]
         ++ more
    /\ count is_accident_email (out s')
       = S (count is_accident_email (out s))
    /\ (pressed f <> KeyR -> accident_detected s' = true).
Proof.
  intros Hw Hc Hacc Htilt Hgt.
  destruct (tick_chain float np_mean f s Hw Hc)
    as (g & s1 & t & s2 & Hs & Hw1 & Hc1 & Hf & _ & _ & Ht).
  assert (Hg : g = fst (Gps.parse_gps_data float (gps_serial f)
                          (last_gps_coords s))).
  { unfold sensor_phase in Hs.
    destruct (Gps.parse_gps_data float (gps_serial f) (last_gps_coords s))
      as [g0 last].
    destruct (check_tilt_angle (tilt f)) as [a b].
    injection Hs as <- _. reflexivity. }
  pose proof (sensor_phase_spec float f s) as Hsp. rewrite Hs in Hsp.
  cbv zeta in Hsp. rewrite Htilt, Hacc in Hsp.
  cbn [check_tilt_angle fst snd] in Hsp.
  assert (Hq : Qgt_bool angle TILT_THRESHOLD = true)
    by (apply Qlt_bool_iff, Hgt).
  rewrite Hq in Hsp. cbn [orb andb negb] in Hsp.
  destruct Hsp as (_ & _ & _ & _ & _ & Hacc1 & _ & Hout1).
  destruct (face_phase_spec np_mean (rects f) s1 Hw1 Hc1)
    as (t' & s2' & Hf' & _ & _ & Hacc2 & _ & _ & _ & _ & Hcnt2 & _).
  rewrite Hf in Hf'. injection Hf' as <- <-.
  assert (Hout2 : out s2 = out s1).
  { destruct (face_phase_alerts np_mean _ _ _ _ Hw1 Hc1 Hf)
      as [(_ & _ & _ & _ & _ & _ & _ & Ho) | (_ & Hoff & _)];
      [exact Ho | congruence]. }
  pose proof (alert_logic_debounce t (now f) g s2)
    as (_ & Hacc3 & _ & _ & Hcnt3).
  destruct (alert_logic_out t (now f) g s2) as [m3 Hout3].
  pose proof (keyboard_spec (pressed f) (speech f) g
                (alert_logic t (now f) g s2)) as Hkb.
  destruct (keyboard_out (pressed f) (speech f) g
              (alert_logic t (now f) g s2)) as [m4 Hout4].
  destruct (keyboard _ _ _ _) as [ctl s']. cbn [snd] in Hout4.
  destruct Hkb as (_ & _ & _ & _ & _ & Hcnt4 & Hkeep & _).
  exists ctl, s', (m3 ++ m4). split; [exact Ht|]. split; [|split].
  - rewrite Hout4, Hout3, Hout2, Hout1, Hg, <- !app_assoc. reflexivity.
  - rewrite Hcnt4, Hcnt3, Hcnt2, Hout1. count_norm. lia.
  - intros Hk. rewrite (Hkeep Hk). congruence.
Qed.

(** X23.  Nothing runs after the quit key: whatever follows an iteration in
    which [q] is pressed is never processed, so the globals at the end of
    the loop do not depend on it. *)
Theorem nothing_runs_after_quit (inputs rest rest' : list (option frame))
    (f : frame) (s : state) :
  pressed f = KeyQ ->
  main_loop float np_mean (inputs ++ Some f :: rest) s
  = main_loop float np_mean (inputs ++ Some f :: rest') s.
Proof.
  intros Hq. revert s.
  induction inputs as [|i more IH]; intros s; cbn [app main_loop].
  - unfold tick. destruct (sensor_phase float f s) as [g s1].
    destruct (face_phase np_mean (rects f) s1) as [[t s2]|]; [|reflexivity].
    cbn [bind]. rewrite Hq. reflexivity.
  - destruct (tick float np_mean i s) as [[ctl s1]|]; [|reflexivity].
    cbn [bind]. destruct ctl; [apply IH | reflexivity].
Qed.

End Iterations.

Lemma no_alcohol_no_test_witness :
  exists s,
    main_loop Gps.decimal_float mean_seq
      [Some {| gps_serial := None; tilt := None; alcohol := Some 0.4;
               sample := ["apple"; "banana"; "guitar"; "jacket"]%string;
               rects := []; now := 1; pressed := KeyS;
               speech := Speech.Heard "nothing" |}; None] initial
    = Ok s
    /\ alcohol_test_active s = false
    /\ count is_alcohol_email (out s) = 0%nat.
Proof.
  destruct (no_alcohol_no_test Gps.decimal_float mean_seq
              [Some {| gps_serial := None; tilt := None; alcohol := Some 0.4;
                       sample := ["apple"; "banana"; "guitar"; "jacket"]%string;
                       rects := []; now := 1; pressed := KeyS;
                       speech := Speech.Heard "nothing" |}; None])
    as (s & Hl & Ha & _ & _ & Hn).
  - vm_compute. reflexivity.
  - exists s. auto.
Defined.

Lemma face_gap_resets_counter_only_witness :
  exists ctl s',
    tick Gps.decimal_float mean_seq (Some (quiet None [] 3)) (set_COUNTER 19 initial)
    = Ok (ctl, s')
    /\ COUNTER s' = 0%nat.
Proof.
  destruct (face_gap_resets_counter_only Gps.decimal_float mean_seq (quiet None [] 3)
              (set_COUNTER 19 initial))
    as (ctl & s' & Ht & _ & Hk & _).
  - unfold window_ok. cbn. lia.
  - unfold calibration_ok. cbn. unfold CALIB_FRAMES. lia.
  - reflexivity.
  - exists ctl, s'. auto.
Defined.

Lemma accident_email_carries_angle_and_fix_witness :
  exists ctl s',
    tick Gps.decimal_float mean_seq
      (Some {| gps_serial :=
                 Some [Gps.Line "$GPGGA,123519,4000.000,N,07300.000,W,1,08,0.9,545.4,M"];
               tilt := Some 50; alcohol := None; sample := [];
               rects := []; now := 1; pressed := KeyNone;
               speech := Speech.OtherError |}) initial
    = Ok (ctl, s')
    /\ count is_accident_email (out s') = 1%nat.
Proof.
  destruct (accident_email_carries_angle_and_fix Gps.decimal_float mean_seq
              {| gps_serial :=
                   Some [Gps.Line "$GPGGA,123519,4000.000,N,07300.000,W,1,08,0.9,545.4,M"];
                 tilt := Some 50; alcohol := None; sample := [];
                 rects := []; now := 1; pressed := KeyNone;
                 speech := Speech.OtherError |} initial 50)
    as (ctl & s' & more & Ht & _ & Hn & _); try apply initial_ok;
    try reflexivity.
  exists ctl, s'. split; [exact Ht | exact Hn].
Defined.

Lemma nothing_runs_after_quit_witness :
  main_loop Gps.decimal_float mean_seq
    ([None] ++ Some {| gps_serial := None; tilt := None; alcohol := None;
                       sample := []; rects := []; now := 1; pressed := KeyQ;
                       speech := Speech.OtherError |}
            :: [Some (quiet (Some 80) [] 2)]) initial
  = main_loop Gps.decimal_float mean_seq
      ([None] ++ Some {| gps_serial := None; tilt := None; alcohol := None;
                         sample := []; rects := []; now := 1; pressed := KeyQ;
                         speech := Speech.OtherError |}
              :: []) initial.
Proof.
  apply (nothing_runs_after_quit Gps.decimal_float mean_seq). reflexivity.
Defined.
